(** * Implicit-feedback recommender with the triplet loss

    A shallow embedding of the notebook
    [labs/03_neural_recsys/Implicit_Feedback_Recsys_with_the_triplet_loss.ipynb]:
    the release-year extraction, the two loss functions, the ranking
    evaluator and the triplet sampler, followed by the properties proved
    about them.

    Conventions.
    - Python integers are [Z]; a Python exception is the [Err] case of
      [result].
    - A pandas table is the list of its rows; a column is the list of the
      values of one field, in row order.
    - An id is a [numpy.int64]: adding 1 to the largest one wraps round.
    - The similarities and the losses are float32 values, with the rounding,
      the infinities and the NaN of IEEE 754. The scores of the match model
      and the AUC values of the evaluator are exact rationals [Q].
    - numpy's generator, scikit-learn's [roc_auc_score] and TensorFlow's
      [reduce_mean] are external libraries: they are parameters of the
      development. *)

From Stdlib Require Import String Ascii ZArith QArith Qround Qreduction Qpower
  Bool List FinFun Lia Lqa.
Import ListNotations.
Local Open Scope Z_scope.

(* ===================================================================== *)
(** * Part I: the embedding *)
(* ===================================================================== *)

(** ** Python exceptions and results *)

Inductive exn : Type :=
| ValueError
| TypeError
| ZeroDivisionError
| ShapeError
| ReferenceError.

Inductive result (A : Type) : Type :=
| Ok (a : A)
| Err (e : exn).

Arguments Ok {A} a.
Arguments Err {A} e.

(** Sequencing: the code after a call runs when the call returns. *)
Class Monad (M : Type -> Type) : Type := {
  ret : forall {A : Type}, A -> M A;
  bind : forall {A B : Type}, M A -> (A -> M B) -> M B
}.

Notation "x <- c ;; k" := (bind c (fun x => k))
  (at level 61, c at next level, right associativity).

#[global] Instance Monad_result : Monad result := {|
  ret := fun _ a => Ok a;
  bind := fun _ _ r k => match r with Ok a => k a | Err e => Err e end
|}.

(** What a caller observes of a computation: its value, or its exception. *)
Definition map_result {A B} (f : A -> B) (r : result A) : result B :=
  match r with Ok a => Ok (f a) | Err e => Err e end.

(** An optional keyword argument: [None] when the caller leaves it out. *)
Definition kwarg {A} (default : A) (given : option A) : A :=
  match given with Some a => a | None => default end.

(** ** Tables *)

(** One row of a rating table
    ([names=["user_id", "item_id", "rating", "timestamp"]]). *)
Record interaction : Type := mkInteraction {
  user_id : Z;
  item_id : Z;
  rating : Z;
  timestamp : Z
}.

Definition DataFrame := list interaction.

(** [df[col].values] *)
Definition values (col : interaction -> Z) (df : DataFrame) : list Z :=
  map col df.

(** [df[df[col] == v]] *)
Definition where_eq (col : interaction -> Z) (v : Z) (df : DataFrame) : DataFrame :=
  filter (fun row => col row =? v) df.

(** [df.query("rating >= 4")] *)
Definition query_rating_ge (threshold : Z) (df : DataFrame) : DataFrame :=
  filter (fun row => threshold <=? rating row) df.

(** ** The triplet sampler *)

Section NumpyRandom.

(** The state of a [numpy.random.RandomState] object, the state a valid seed
    initialises it to, and one bounded draw: [draw st low high] is the next
    integer of the generator for the half-open interval [[low, high)],
    together with the advanced state. *)
Variable rng_state : Type.
Variable init_by_seed : Z -> rng_state.
Variable draw : rng_state -> Z -> Z -> Z * rng_state.

(** Generator objects live in the interpreter's store; a Python variable
    such as [rng] holds a reference to one of them. *)
Definition heap := list rng_state.
Definition ref := nat.
Definition py (A : Type) : Type := heap -> result (A * heap).

#[global] Instance Monad_py : Monad py := {|
  ret := fun _ a h => Ok (a, h);
  bind := fun _ _ c k h =>
    match c h with
    | Ok (a, h') => k a h'
    | Err e => Err e
    end
|}.

Definition get : py heap := fun h => Ok (h, h).
Definition put (h' : heap) : py unit := fun _ => Ok (tt, h').
Definition raise {A} (e : exn) : py A := fun _ => Err e.

Fixpoint store_at (h : heap) (r : ref) (st : rng_state) : heap :=
  match h, r with
  | [], _ => []
  | _ :: h', O => st :: h'
  | x :: h', S r' => x :: store_at h' r' st
  end.

(** [np.random.RandomState(seed)]: a new object; the seed must fit 32 bits
    ("Seed must be between 0 and 2**32 - 1"). *)
Definition RandomState (seed : Z) : py ref :=
  if (0 <=? seed) && (seed <? 2 ^ 32) then
    h <- get ;;
    _ <- put (h ++ [init_by_seed seed]) ;;
    ret (length h)
  else raise ValueError.

Fixpoint draws (st : rng_state) (low high : Z) (size : nat) : list Z * rng_state :=
  match size with
  | O => ([], st)
  | S k =>
      let '(x, st1) := draw st low high in
      let '(xs, st2) := draws st1 low high k in
      (x :: xs, st2)
  end.

(** The exclusive upper bound of the default integer dtype (int64). *)
Definition highbnd : Z := 2 ^ 63.
Definition lowbnd : Z := - 2 ^ 63.

(** [rng.randint(low, high, size)]: the bounds are checked ("low is out of
    bounds", "high is out of bounds", "low >= high"), then [size] integers
    are drawn and the object's state is advanced in place. *)
Definition randint (rng : ref) (low high : Z) (size : nat) : py (list Z) :=
  h <- get ;;
  match nth_error h rng with
  | None => raise ReferenceError
  | Some st =>
      if low <? lowbnd then raise ValueError
      else if highbnd <? high then raise ValueError
      else if high <=? low then raise ValueError
      else
        let '(xs, st') := draws st low high size in
        _ <- put (store_at h rng st') ;;
        ret xs
  end.

(** [sample_triplets(pos_data, max_item_id, random_seed=0)] *)
Definition sample_triplets (pos_data : DataFrame) (max_item_id : Z)
    (random_seed : option Z) : py (list (list Z)) :=
  let random_seed := kwarg 0 random_seed in
  rng <- RandomState random_seed ;;
  let user_ids := values user_id pos_data in
  let pos_item_ids := values item_id pos_data in
  neg_item_ids <- randint rng 1 (max_item_id + 1) (length user_ids) ;;
  ret [user_ids; pos_item_ids; neg_item_ids].

(** Running a call in a store: the returned value (or the exception). *)
Definition returned {A} (c : py A) (h : heap) : result A :=
  map_result fst (c h).

(** Two calls in a row. *)
Definition twice {A} (c : py A) : py (A * A) :=
  first <- c ;;
  second <- c ;;
  ret (first, second).

End NumpyRandom.

Arguments RandomState {rng_state} init_by_seed seed.
Arguments randint {rng_state} draw rng low high size.
Arguments sample_triplets {rng_state} init_by_seed draw pos_data max_item_id random_seed.
Arguments returned {rng_state A} c h.
Arguments twice {rng_state A} c.

(** The arguments the two library calls of the sampler accept. *)
Definition seed_ok (seed : Z) : bool := (0 <=? seed) && (seed <? 2 ^ 32).
Definition bound_ok (max_item_id : Z) : bool :=
  negb (highbnd <? max_item_id + 1) && negb (max_item_id + 1 <=? 1).

(** ** Release year of an item *)

(** A cell of the text column [release_date] as [read_csv] delivers it: a
    [str], or the float [nan] of a missing value. *)
Inductive cell : Type :=
| Text (s : string)
| Missing.

(** [s.split(sep)] for a one-character separator. *)
Fixpoint split (sep : ascii) (s : string) : list string :=
  match s with
  | EmptyString => [EmptyString]
  | String c rest =>
      if Ascii.eqb c sep then EmptyString :: split sep rest
      else
        match split sep rest with
        | [] => [String c EmptyString]
        | w :: ws => String c w :: ws
        end
  end.

(** White space as [int()] strips it, on one-byte characters. *)
Definition isspace (c : ascii) : bool :=
  let n := nat_of_ascii c in
  ((9 <=? n) && (n <=? 13) || (n =? 32) || (n =? 133) || (n =? 160))%nat.

Fixpoint lstrip (s : string) : string :=
  match s with
  | EmptyString => EmptyString
  | String c rest => if isspace c then lstrip rest else s
  end.

Fixpoint rstrip (s : string) : string :=
  match s with
  | EmptyString => EmptyString
  | String c rest =>
      match rstrip rest with
      | EmptyString => if isspace c then EmptyString else String c EmptyString
      | kept => String c kept
      end
  end.

Definition digit (c : ascii) : option Z :=
  let n := nat_of_ascii c in
  if ((48 <=? n) && (n <=? 57))%nat then Some (Z.of_nat n - 48) else None.

(** The digits after a first digit; one underscore may separate two digits. *)
Fixpoint more_digits (acc : Z) (s : string) : option Z :=
  match s with
  | EmptyString => Some acc
  | String c rest =>
      match digit c with
      | Some d => more_digits (acc * 10 + d) rest
      | None =>
          if Ascii.eqb c "_" then
            match rest with
            | EmptyString => None
            | String c' rest' =>
                match digit c' with
                | Some d => more_digits (acc * 10 + d) rest'
                | None => None
                end
            end
          else None
      end
  end.

Definition unsigned_literal (s : string) : option Z :=
  match s with
  | EmptyString => None
  | String c rest =>
      match digit c with
      | Some d => more_digits d rest
      | None => None
      end
  end.

(** The number of decimal digits in a string, and the largest number of
    digits [int()] converts (Python 3.11 and later; no limit before). *)
Definition count_digits (s : string) : nat :=
  length (filter (fun c => match digit c with Some _ => true | None => false end)
            (list_ascii_of_string s)).

Definition int_max_str_digits : nat := 4300.

(** [int(s)] for a [str]: white space around, an optional sign, decimal
    digits; [ValueError] otherwise ("invalid literal for int()"), and for
    more digits than the limit ("Exceeds the limit (4300 digits)"). *)
Definition py_int (s : string) : result Z :=
  let literal :=
    match rstrip (lstrip s) with
    | String "-" rest => option_map Z.opp (unsigned_literal rest)
    | String "+" rest => unsigned_literal rest
    | body => unsigned_literal body
    end in
  match literal with
  | Some n =>
      if (count_digits s <=? int_max_str_digits)%nat then Ok n else Err ValueError
  | None => Err ValueError
  end.

(** [extract_year(release_date)] *)
Definition extract_year (release_date : cell) : result Z :=
  match release_date with
  | Text s =>
      let components := split "-" s in
      if (length components =? 3)%nat then py_int (nth 2 components EmptyString)
      else
        (* Missing value marker *)
        Ok 1920
  | Missing =>
      (* Missing value marker *)
      Ok 1920
  end.

(** ** float32

    The similarities and the losses are TensorFlow tensors of dtype float32.
    A float32 is a finite number, an infinity or NaN. The finite numbers are
    kept as exact rationals, and an operation rounds its exact result to the
    nearest float32, ties to even (IEEE 754 binary32: 24 bits of precision,
    the last bit of a subnormal number at [2 ^ -149], overflow to an infinity
    from [2 ^ 128]). The two zeros of float32 are one value here, as they are
    for [==]. *)

Inductive float32 : Type :=
| Finite (q : Q)
| PosInf
| NegInf
| NaN.

(** [2 ^ e], also for a negative [e]. *)
Definition pow2 (e : Z) : Q := (2 ^ e)%Q.

(** The binade of a positive [q]: the [e] with [2 ^ e <= q < 2 ^ (e + 1)]. *)
Definition ilog2 (q : Q) : Z :=
  let e0 := Z.log2 (Qnum q) - Z.log2 (Zpos (Qden q)) in
  if Qle_bool (pow2 e0) q then e0 else e0 - 1.

(** The nearest integer, ties to the even one. *)
Definition rne (t : Q) : Z :=
  let f := Qfloor t in
  match (t - inject_Z f ?= 1 # 2)%Q with
  | Lt => f
  | Gt => f + 1
  | Eq => if Z.even f then f else f + 1
  end.

(** The exponent of the last bit of the float32 numbers next to a positive
    [q]. *)
Definition ulp_exponent (q : Q) : Z := Z.max (ilog2 q - 23) (-149).

(** Rounding to 24 bits, with exponents unbounded above. *)
Definition nearest_pos (q : Q) : Q :=
  let e := ulp_exponent q in (inject_Z (rne (q / pow2 e)) * pow2 e)%Q.

Definition nearest (q : Q) : Q :=
  let q := Qred q in
  match Qnum q with
  | Z0 => 0%Q
  | Zpos _ => Qred (nearest_pos q)
  | Zneg _ => Qred (- nearest_pos (- q))
  end.

(** The float32 of a real number, as a conversion or an operation gives it. *)
Definition round32 (q : Q) : float32 :=
  let r := nearest q in
  if Qle_bool (pow2 128) r then PosInf
  else if Qle_bool r (- pow2 128) then NegInf
  else Finite r.



(** [x + y], [x - y], [x * y] *)
Definition fadd (x y : float32) : float32 :=
  match x, y with
  | NaN, _ | _, NaN => NaN
  | PosInf, NegInf | NegInf, PosInf => NaN
  | PosInf, _ | _, PosInf => PosInf
  | NegInf, _ | _, NegInf => NegInf
  | Finite a, Finite b => round32 (a + b)
  end.

Definition fsub (x y : float32) : float32 :=
  match x, y with
  | NaN, _ | _, NaN => NaN
  | PosInf, PosInf | NegInf, NegInf => NaN
  | PosInf, _ | _, NegInf => PosInf
  | NegInf, _ | _, PosInf => NegInf
  | Finite a, Finite b => round32 (a - b)
  end.

Definition fmul (x y : float32) : float32 :=
  let scaled (a : Q) (up down : float32) :=
    match (a ?= 0)%Q with Gt => up | Lt => down | Eq => NaN end in
  match x, y with
  | NaN, _ | _, NaN => NaN
  | Finite a, Finite b => round32 (a * b)
  | Finite a, PosInf | PosInf, Finite a => scaled a PosInf NegInf
  | Finite a, NegInf | NegInf, Finite a => scaled a NegInf PosInf
  | PosInf, PosInf | NegInf, NegInf => PosInf
  | PosInf, NegInf | NegInf, PosInf => NegInf
  end.

(** The larger of two values; NaN when one of them is NaN. *)
Definition fmax (x y : float32) : float32 :=
  match x, y with
  | NaN, _ | _, NaN => NaN
  | PosInf, _ | _, PosInf => PosInf
  | NegInf, z | z, NegInf => z
  | Finite a, Finite b => if Qle_bool a b then Finite b else Finite a
  end.

(** [x <= y], false when one of them is NaN. *)
Definition fle (x y : float32) : bool :=
  match x, y with
  | NaN, _ | _, NaN => false
  | NegInf, _ | _, PosInf => true
  | Finite a, Finite b => Qle_bool a b
  | _, _ => false
  end.

(** ** The losses *)

(** A batch of float32 values, one per example. The layers of the notebook
    feed the losses tensors of one common shape; combining two batches of
    different lengths is a [ShapeError] here (broadcasting is not
    modelled). *)
Definition tensor := list float32.

Fixpoint zip_with {A B C} (f : A -> B -> C) (a : list A) (b : list B) : list C :=
  match a, b with
  | x :: a', y :: b' => f x y :: zip_with f a' b'
  | _, _ => []
  end.

Definition elementwise (f : float32 -> float32 -> float32) (a b : tensor)
    : result tensor :=
  if (length a =? length b)%nat then Ok (zip_with f a b) else Err ShapeError.

(** [a - b], [a + b] on tensors; [a + c], [c * a], [tf.maximum(a, c)] with a
    Python scalar [c], converted to float32. *)
Definition tf_sub : tensor -> tensor -> result tensor := elementwise fsub.
Definition tf_add_scalar (a : tensor) (c : Q) : tensor :=
  map (fun x => fadd x (round32 c)) a.
Definition tf_maximum (a : tensor) (c : Q) : tensor :=
  map (fun x => fmax x (round32 c)) a.

Section Losses.

(** [tf.reduce_mean], the mean of all the entries of a tensor. The order in
    which TensorFlow adds the entries, and so the rounding of the result, is
    not fixed by its interface: the reduction is a parameter. *)
Variable reduce_mean : tensor -> float32.


End Losses.

(** [margin_comparator_loss(inputs, margin=1.)], for a finite [margin]. *)
Definition margin_comparator_loss (inputs : tensor * tensor) (margin : option Q)
    : result tensor :=
  let margin := kwarg 1%Q margin in
  let '(positive_pair_sim, negative_pair_sim) := inputs in
  difference <- tf_sub negative_pair_sim positive_pair_sim ;;
  ret (tf_maximum (tf_add_scalar difference margin) 0%Q).

(** ** The ranking evaluator *)

(** [series.max()]: the largest value, [nan] (here [None]) for an empty
    column. *)
Definition series_max (column : list Z) : option Z :=
  match column with
  | [] => None
  | x :: rest => Some (fold_left Z.max rest x)
  end.

(** Python's [max(a, b)]: [b] when [b > a], else [a]; every comparison with
    [nan] is false. *)
Definition py_max (a b : option Z) : option Z :=
  match a, b with
  | Some x, Some y => Some (if x <? y then y else x)
  | Some x, None => Some x
  | None, _ => None
  end.

(** The largest [numpy.int64]. *)
Definition int64_max : Z := 2 ^ 63 - 1.

(** [n + 1] for the maximum [n] of a column, a [numpy.int64] or [nan]: the
    sum wraps round at the largest int64; [nan + 1] is [nan]. *)
Definition plus_one (n : option Z) : option Z :=
  option_map (fun x => if x =? int64_max then - 2 ^ 63 else x + 1) n.

(** The largest number below [n + 1]: [n], and a number below every id when
    the sum wraps round. [range(1, n + 1)] and [np.arange(1, n + 1)] run from
    1 to it. *)
Definition reach (n : Z) : Z := if n =? int64_max then - 2 ^ 63 - 1 else n.

Definition interval (start stop : Z) : list Z :=
  map (fun i => start + Z.of_nat i) (seq 0 (Z.to_nat (stop - start))).

(** [range(start, stop)]: [TypeError] when [stop] is a float. *)
Definition py_range (start : Z) (stop : option Z) : result (list Z) :=
  match stop with
  | Some n => Ok (interval start n)
  | None => Err TypeError
  end.

(** [np.arange(start, stop)]: [ValueError] when [stop] is [nan]. *)
Definition np_arange (start : Z) (stop : option Z) : result (list Z) :=
  match stop with
  | Some n => Ok (interval start n)
  | None => Err ValueError
  end.

Fixpoint insert_unique (x : Z) (l : list Z) : list Z :=
  match l with
  | [] => [x]
  | y :: rest =>
      if x <? y then x :: l
      else if x =? y then l
      else y :: insert_unique x rest
  end.

(** [np.unique(ar)]: the sorted distinct values. *)
Definition np_unique (ar : list Z) : list Z := fold_right insert_unique [] ar.

Definition isin (x : Z) (ar : list Z) : bool := existsb (Z.eqb x) ar.

(** [np.in1d(ar1, ar2)] *)
Definition np_in1d (ar1 ar2 : list Z) : list bool := map (fun x => isin x ar2) ar1.

(** [np.setdiff1d(ar1, ar2)]: the sorted distinct values of [ar1] that are
    not in [ar2]. *)
Definition np_setdiff1d (ar1 ar2 : list Z) : list Z :=
  filter (fun x => negb (isin x (np_unique ar2))) (np_unique ar1).

(** [np.sum] of a boolean array *)
Definition np_sum (flags : list bool) : Z :=
  fold_right (fun (b : bool) acc => (if b then 1 else 0) + acc) 0 flags.

(** [sum(xs)] of Python: from the integer 0, left to right. *)
Definition py_sum (xs : list Q) : Q := fold_left Qplus xs 0%Q.

(** [x / n]: [ZeroDivisionError] when [n] is 0. *)
Definition py_truediv (x : Q) (n : Z) : result Q :=
  if n =? 0 then Err ZeroDivisionError else Ok (x / inject_Z n)%Q.

(** A match model is its score for a (user, item) pair; [predict] scores the
    rows of a batch. *)
Definition model := Z -> Z -> Q.

Definition predict (match_model : model) (users items : list Z) : list Q :=
  zip_with match_model users items.

Section Evaluator.

(** [sklearn.metrics.roc_auc_score(y_true, y_score)], which raises
    [ValueError] when [y_true] holds one class only. *)
Variable roc_auc_score : list bool -> list Q -> result Q.

(** The candidates of one user: the local [items_to_rank]. *)
Definition items_to_rank (data_train : DataFrame) (max_item_id : option Z)
    (uid : Z) : result (list Z) :=
  let pos_item_train := where_eq user_id uid data_train in
  (* Consider all the items already seen in the training set *)
  all_item_ids <- np_arange 1 (plus_one max_item_id) ;;
  ret (np_setdiff1d all_item_ids (values item_id pos_item_train)).

(** The ground truth of one user: the local [expected]. *)
Definition expected (data_test : DataFrame) (candidates : list Z) (uid : Z)
    : list bool :=
  let pos_item_test := where_eq user_id uid data_test in
  np_in1d candidates (values item_id pos_item_test).

(** The body of the loop over the users, run on the users left to visit;
    [user_auc_scores] is the list the loop appends to. *)
Fixpoint for_user_id (match_model : model) (data_train data_test : DataFrame)
    (max_item_id : option Z) (users : list Z) (user_auc_scores : list Q)
    : result (list Q) :=
  match users with
  | [] => Ok user_auc_scores
  | uid :: rest =>
      candidates <- items_to_rank data_train max_item_id uid ;;
      let labels := expected data_test candidates uid in
      if 1 <=? np_sum labels then
        (* At least one positive test value to rank *)
        let repeated_user_id := repeat uid (length candidates) in
        let predicted := predict match_model repeated_user_id candidates in
        auc <- roc_auc_score labels predicted ;;
        for_user_id match_model data_train data_test max_item_id rest
          (user_auc_scores ++ [auc])
      else
        for_user_id match_model data_train data_test max_item_id rest
          user_auc_scores
  end.

(** [average_roc_auc(match_model, data_train, data_test)] *)
Definition average_roc_auc (match_model : model) (data_train data_test : DataFrame)
    : result Q :=
  let max_user_id :=
    py_max (series_max (values user_id data_train))
           (series_max (values user_id data_test)) in
  let max_item_id :=
    py_max (series_max (values item_id data_train))
           (series_max (values item_id data_test)) in
  users <- py_range 1 (plus_one max_user_id) ;;
  user_auc_scores <-
    for_user_id match_model data_train data_test max_item_id users [] ;;
  py_truediv (py_sum user_auc_scores) (Z.of_nat (length user_auc_scores)).

End Evaluator.

(** The list [user_auc_scores] as the loop of [average_roc_auc] leaves it,
    when the final division is reached. *)
Definition user_auc_scores (roc_auc_score : list bool -> list Q -> result Q)
    (match_model : model) (data_train data_test : DataFrame) : result (list Q) :=
  let max_user_id :=
    py_max (series_max (values user_id data_train))
           (series_max (values user_id data_test)) in
  let max_item_id :=
    py_max (series_max (values item_id data_train))
           (series_max (values item_id data_test)) in
  users <- py_range 1 (plus_one max_user_id) ;;
  for_user_id roc_auc_score match_model data_train data_test max_item_id users [].

(** ** The notebook around the evaluator *)

(** [max_item_id] of the notebook: over every rating of the two tables. *)
Definition notebook_max_item_id (data_train data_test : DataFrame) : option Z :=
  py_max (series_max (values item_id data_train))
         (series_max (values item_id data_test)).

(** [pos_data_train], [pos_data_test]: the ratings of 4 and more. *)
Definition pos_data (data : DataFrame) : DataFrame := query_rating_ge 4 data.

(** ** The evaluator in the words of its description

    Per user: the candidates are the item ids of [[1, max_item_id]] that are
    not among the user's training items; a candidate is labelled 1 when it is
    among the user's test items; a user without a candidate of label 1 is
    skipped; the result is the arithmetic mean of the AUC of the other
    users. *)

Definition train_items (data_train : DataFrame) (u : Z) : list Z :=
  values item_id (where_eq user_id u data_train).

Definition test_items (data_test : DataFrame) (u : Z) : list Z :=
  values item_id (where_eq user_id u data_test).

Definition candidate_items (data_train : DataFrame) (max_item_id u : Z) : list Z :=
  filter (fun i => negb (isin i (train_items data_train u)))
         (interval 1 (max_item_id + 1)).

Definition label (data_test : DataFrame) (u i : Z) : bool :=
  isin i (test_items data_test u).

Definition skipped (data_train data_test : DataFrame) (max_item_id u : Z) : bool :=
  negb (existsb (label data_test u) (candidate_items data_train max_item_id u)).

Definition non_skipped_users (data_train data_test : DataFrame)
    (max_user_id max_item_id : Z) : list Z :=
  filter (fun u => negb (skipped data_train data_test max_item_id u))
         (interval 1 (max_user_id + 1)).

Fixpoint traverse {A B} (f : A -> result B) (l : list A) : result (list B) :=
  match l with
  | [] => Ok []
  | x :: rest =>
      y <- f x ;;
      ys <- traverse f rest ;;
      ret (y :: ys)
  end.

Definition reduce_sum (xs : list Q) : Q := fold_right Qplus 0%Q xs.

Definition arithmetic_mean (xs : list Q) : result Q :=
  match xs with
  | [] => Err ZeroDivisionError
  | _ => Ok (reduce_sum xs / inject_Z (Z.of_nat (length xs)))%Q
  end.

Definition user_auc (roc_auc_score : list bool -> list Q -> result Q)
    (match_model : model) (data_train data_test : DataFrame)
    (max_item_id u : Z) : result Q :=
  let candidates := candidate_items data_train max_item_id u in
  roc_auc_score (map (label data_test u) candidates)
                (map (match_model u) candidates).

(** The two bounds [average_roc_auc] computes from the tables it is given. *)
Definition local_max_user_id (data_train data_test : DataFrame) : option Z :=
  py_max (series_max (values user_id data_train))
         (series_max (values user_id data_test)).

Definition local_max_item_id (data_train data_test : DataFrame) : option Z :=
  py_max (series_max (values item_id data_train))
         (series_max (values item_id data_test)).

(** The users with at least one positive test candidate. *)
Definition eligible_users (data_train data_test : DataFrame) : list Z :=
  match local_max_user_id data_train data_test,
        local_max_item_id data_train data_test with
  | Some max_user_id, Some max_item_id =>
      non_skipped_users data_train data_test max_user_id max_item_id
  | _, _ => []
  end.

Definition mean_auc_of_non_skipped (roc_auc_score : list bool -> list Q -> result Q)
    (match_model : model) (data_train data_test : DataFrame) : result Q :=
  match local_max_user_id data_train data_test,
        local_max_item_id data_train data_test with
  | Some _, Some max_item_id =>
      aucs <- traverse
                (user_auc roc_auc_score match_model data_train data_test max_item_id)
                (eligible_users data_train data_test) ;;
      arithmetic_mean aucs
  | _, _ => Err TypeError
  end.

(** Two results agree: the same exception, or equal rationals. *)
Definition result_Qeq (r1 r2 : result Q) : Prop :=
  match r1, r2 with
  | Ok a, Ok b => (a == b)%Q
  | Err e1, Err e2 => e1 = e2
  | _, _ => False
  end.

(** A release date as the item file writes it: ["01-Jan-1995"]. *)
Definition months : list string :=
  ["Jan"; "Feb"; "Mar"; "Apr"; "May"; "Jun";
   "Jul"; "Aug"; "Sep"; "Oct"; "Nov"; "Dec"]%string.

Definition all_digits (s : string) : bool :=
  forallb (fun c => match digit c with Some _ => true | None => false end)
          (list_ascii_of_string s).

Definition well_formed_date (release_date : cell) : bool :=
  match release_date with
  | Text s =>
      match split "-" s with
      | [day; month; year] =>
          (String.length day =? 2)%nat && all_digits day
          && existsb (String.eqb month) months
          && (String.length year =? 4)%nat && all_digits year
      | _ => false
      end
  | Missing => false
  end.

Fixpoint count_char (c : ascii) (s : string) : nat :=
  match s with
  | EmptyString => O
  | String c' rest => (if Ascii.eqb c' c then 1 else 0) + count_char c rest
  end.

(** ** Concrete instances, to run the definitions *)

(** Two users: user 1 with training positive 10 and test positive 20, user 2
    with training positive 5 and no test positive. *)
Definition scenario_train : DataFrame :=
  [mkInteraction 1 10 5 875071561; mkInteraction 2 5 5 888550871].
Definition scenario_test : DataFrame :=
  [mkInteraction 1 20 5 875072484].

(** Ratings of one user where the largest item id has no positive rating. *)
Definition ratings_train : DataFrame :=
  [mkInteraction 1 1 5 875071561; mkInteraction 1 3 2 875071713].
Definition ratings_test : DataFrame :=
  [mkInteraction 1 2 5 875072484].

(** Three positive interactions of two users. *)
Definition three_rows : DataFrame :=
  [mkInteraction 1 10 5 875071561;
   mkInteraction 1 12 4 875071713;
   mkInteraction 2 5 5 888550871].

(** A small generator: the state is a counter, a draw reduces it into the
    interval. *)
Definition counter_init (seed : Z) : Z := seed * 7 + 3.
Definition counter_draw (st low high : Z) : Z * Z :=
  (low + st mod (high - low), st * 5 + 1).

(** The area under the ROC curve as the share of (positive, negative) pairs
    the scores order correctly, a tie counting for a half. *)
Definition pair_credit (sp sn : Q) : Q :=
  if Qlt_le_dec sn sp then 1%Q else if Qeq_bool sp sn then (1 # 2)%Q else 0%Q.

Definition scores_of (label : bool) (y_true : list bool) (y_score : list Q) : list Q :=
  map snd (filter (fun p => Bool.eqb (fst p) label) (combine y_true y_score)).

Definition rank_auc (y_true : list bool) (y_score : list Q) : result Q :=
  let pos := scores_of true y_true y_score in
  let neg := scores_of false y_true y_score in
  match pos, neg with
  | [], _ | _, [] => Err ValueError
  | _, _ =>
      Ok (reduce_sum (flat_map (fun sp => map (pair_credit sp) neg) pos)
          / inject_Z (Z.of_nat (length pos * length neg)))%Q
  end.



(** ** The cells around the functions *)

(** [max_user_id], [n_users] and [n_items] of the notebook, computed over
    every rating of the two tables; [n_users] and [n_items] are the sizes of
    the two embedding tables. *)
Definition notebook_max_user_id (data_train data_test : DataFrame) : option Z :=
  py_max (series_max (values user_id data_train))
         (series_max (values user_id data_test)).

Definition n_users (data_train data_test : DataFrame) : option Z :=
  plus_one (notebook_max_user_id data_train data_test).

Definition n_items (data_train data_test : DataFrame) : option Z :=
  plus_one (notebook_max_item_id data_train data_test).

Definition n_epochs : Z := 15.


(** The (user, item) pairs of a table. *)
Definition pairs (df : DataFrame) : list (Z * Z) :=
  map (fun row => (user_id row, item_id row)) df.

(** Ids as the rating files have them: from 1, below the largest int64. *)
Definition ids_from_one (df : DataFrame) : Prop :=
  forall row, In row df ->
    1 <= user_id row < int64_max /\ 1 <= item_id row < int64_max.

(** Every id of the two tables is below the largest int64: no [max + 1] of
    the notebook wraps round. *)
Definition ids_below_int64_max (data_train data_test : DataFrame) : Prop :=
  forall row, In row (data_train ++ data_test) ->
    user_id row < int64_max /\ item_id row < int64_max.

(** The number a string of decimal digits writes. *)
Definition decimal (s : string) : Z :=
  fold_left (fun acc c => acc * 10 + kwarg 0 (digit c)) (list_ascii_of_string s) 0.

(** Two match models to run the evaluator with: the first scores an item by
    its id; the second does so for user 1 and items other than 10 only; the
    third inside the index ranges [[1, 3)] and [[1, 21)] only. *)
Definition score_by_item : model := fun _ i => inject_Z i.

Definition score_user_one : model :=
  fun u i => if (u =? 1) && negb (i =? 10) then inject_Z i else 0%Q.

Definition score_in_range : model :=
  fun u i =>
    if (1 <=? u) && (u <? 3) && (1 <=? i) && (i <? 21) then inject_Z i else 0%Q.

(** The scenario with other ratings and time stamps, its rows in another
    order, one of them twice. *)
Definition scenario_train_shuffled : DataFrame :=
  [mkInteraction 2 5 1 0; mkInteraction 1 10 3 7; mkInteraction 2 5 4 9].
Definition scenario_test_rerated : DataFrame :=
  [mkInteraction 1 20 1 0].

(** [items['release_date'].map(extract_year)]: the function is applied to
    the cells from the first one on; an exception ends the call. *)
Definition release_years (column : list cell) : result (list Z) :=
  traverse extract_year column.

(** Tables where every candidate of user 1 is a test positive. *)
Definition one_class_train : DataFrame := [mkInteraction 1 1 5 875071561].
Definition one_class_test : DataFrame := [mkInteraction 1 2 5 875072484].

(* ===================================================================== *)
(** * Part II: properties *)
(* ===================================================================== *)

(** ** The triplet sampler *)

Section SamplerFacts.

Variable rng_state : Type.
Variable init_by_seed : Z -> rng_state.
Variable draw : rng_state -> Z -> Z -> Z * rng_state.

Notation "'sample'" := (sample_triplets init_by_seed draw).

Lemma nth_error_fresh (h : heap rng_state) (st : rng_state) :
  nth_error (h ++ [st]) (length h) = Some st.
Proof.
  induction h as [|x h IH]; simpl; [reflexivity | exact IH].
Qed.

Lemma store_at_fresh (h : heap rng_state) (st st' : rng_state) :
  store_at rng_state (h ++ [st]) (length h) st' = h ++ [st'].
Proof.
  induction h as [|x h IH]; simpl; [reflexivity | now rewrite IH].
Qed.

Lemma draws_length (st : rng_state) (low high : Z) (size : nat) :
  length (fst (draws rng_state draw st low high size)) = size.
Proof.
  revert st. induction size as [|k IH]; intros st; simpl; [reflexivity|].
  destruct (draw st low high) as [x st1].
  specialize (IH st1).
  destruct (draws rng_state draw st1 low high k) as [xs st2].
  simpl in *. now rewrite IH.
Qed.

Lemma run_bind {A B} (c : py rng_state A) (k : A -> py rng_state B) h :
  (x <- c ;; k x) h =
  match c h with
  | Ok (a, h') => k a h'
  | Err e => Err e
  end.
Proof. reflexivity. Qed.

(** What one call does to the store and what it returns. *)
Lemma sample_triplets_unfold pos m s (h : heap rng_state) :
  sample pos m s h =
  if seed_ok (kwarg 0 s) then
    if bound_ok m then
      let drawn := draws rng_state draw (init_by_seed (kwarg 0 s)) 1 (m + 1)
                     (length (values user_id pos)) in
      Ok ([values user_id pos; values item_id pos; fst drawn], h ++ [snd drawn])
    else Err ValueError
  else Err ValueError.
Proof.
  unfold sample_triplets, RandomState, randint, seed_ok, bound_ok.
  destruct ((0 <=? kwarg 0 s) && (kwarg 0 s <? 2 ^ 32)); simpl; [|reflexivity].
  rewrite nth_error_fresh.
  destruct (highbnd <? m + 1); simpl; [reflexivity|].
  destruct (m + 1 <=? 1); simpl; [reflexivity|].
  destruct (draws rng_state draw (init_by_seed (kwarg 0 s)) 1 (m + 1)
              (length (values user_id pos))) as [xs st'].
  simpl. now rewrite store_at_fresh.
Qed.

Lemma sample_triplets_returned pos m s (h : heap rng_state) :
  returned (sample pos m s) h =
  if seed_ok (kwarg 0 s) && bound_ok m then
    Ok [values user_id pos; values item_id pos;
        fst (draws rng_state draw (init_by_seed (kwarg 0 s)) 1 (m + 1)
               (length (values user_id pos)))]
  else Err ValueError.
Proof.
  unfold returned. rewrite sample_triplets_unfold.
  destruct (seed_ok (kwarg 0 s)), (bound_ok m); reflexivity.
Qed.

Lemma bound_ok_iff m : bound_ok m = true <-> 1 <= m < highbnd.
Proof.
  unfold bound_ok. rewrite andb_true_iff, !negb_true_iff.
  rewrite Z.ltb_ge, Z.leb_gt. lia.
Qed.

Lemma seed_ok_iff seed : seed_ok seed = true <-> 0 <= seed < 2 ^ 32.
Proof.
  unfold seed_ok. rewrite andb_true_iff, Z.leb_le, Z.ltb_lt. tauto.
Qed.

Lemma sample_triplets_total pos m s (h : heap rng_state) :
  0 <= kwarg 0 s < 2 ^ 32 -> 1 <= m < highbnd ->
  exists out, returned (sample pos m s) h = Ok out.
Proof.
  intros Hs Hm. rewrite sample_triplets_returned.
  rewrite (proj2 (seed_ok_iff _) Hs), (proj2 (bound_ok_iff _) Hm).
  simpl. eauto.
Qed.

Lemma draws_range (st : rng_state) (low high : Z) (size : nat) :
  (forall st', low <= fst (draw st' low high) < high) ->
  Forall (fun x => low <= x < high) (fst (draws rng_state draw st low high size)).
Proof.
  intros Hdraw. revert st.
  induction size as [|k IH]; intros st; simpl; [constructor|].
  pose proof (Hdraw st) as Hx.
  destruct (draw st low high) as [x st1].
  specialize (IH st1).
  destruct (draws rng_state draw st1 low high k) as [xs st2].
  simpl in *. constructor; assumption.
Qed.

(** A run with the counter generator: default seed, three rows. *)
Example sample_triplets_three_rows :
  returned (sample_triplets counter_init counter_draw three_rows 20 None) []
  = Ok [[1; 1; 2]; [10; 12; 5]; [4; 17; 2]].
Proof. reflexivity. Qed.

(** [max_item_id = 0] leaves [randint] an empty interval; a negative seed is
    refused. *)
Example sample_triplets_rejects :
  returned (sample_triplets counter_init counter_draw three_rows 0 None) []
    = Err ValueError /\
  returned (sample_triplets counter_init counter_draw three_rows 20 (Some (-1))) []
    = Err ValueError.
Proof. split; reflexivity. Qed.

(** C1. Two calls of [sample_triplets] with the same table, the same
    [max_item_id] and the same seed give the same outcome: the value a call
    returns (the three sequences, so the negative item ids too) or the
    exception it raises does not depend on the store it runs in, and two
    calls in a row return twice the same value. *)
Theorem sample_triplets_deterministic pos m s :
  (forall h h' : heap rng_state,
     returned (sample pos m s) h = returned (sample pos m s) h') /\
  (forall h : heap rng_state,
     returned (twice (sample pos m s)) h =
     map_result (fun out => (out, out)) (returned (sample pos m s) h)).
Proof.
  split.
  - intros h h'. now rewrite !sample_triplets_returned.
  - intros h. unfold returned, twice.
    rewrite run_bind, sample_triplets_unfold.
    destruct (seed_ok (kwarg 0 s)) eqn:Hs; [|reflexivity].
    destruct (bound_ok m) eqn:Hm; [|reflexivity].
    cbv beta iota zeta. rewrite run_bind, sample_triplets_unfold, Hs, Hm.
    reflexivity.
Qed.

(** C2. Whenever [sample_triplets] returns, it returns three sequences:
    the [user_id] column of the table, its [item_id] column, both in row
    order, and the negative item ids; each has as many elements as the table
    has rows. It does return for a seed of 32 bits and a [max_item_id] from 1
    that fits the integer type. *)
Theorem sample_triplets_shape pos m s (h : heap rng_state) :
  (forall out, returned (sample pos m s) h = Ok out ->
     exists neg_item_ids,
       out = [values user_id pos; values item_id pos; neg_item_ids] /\
       length out = 3%nat /\
       length (values user_id pos) = length pos /\
       length (values item_id pos) = length pos /\
       length neg_item_ids = length pos) /\
  (0 <= kwarg 0 s < 2 ^ 32 -> 1 <= m < highbnd ->
     exists out, returned (sample pos m s) h = Ok out).
Proof.
  split; [|apply sample_triplets_total].
  intros out. rewrite sample_triplets_returned.
  destruct (seed_ok (kwarg 0 s) && bound_ok m); [|discriminate].
  intros [= <-]. eexists. split; [reflexivity|].
  unfold values. rewrite draws_length, !length_map. auto.
Qed.

(** C3. With [max_item_id >= 1], every negative item id a call of
    [sample_triplets] returns lies in [[1, max_item_id]], for a generator
    whose draws lie in the interval they are asked for; and the call does
    return for a seed of 32 bits and a [max_item_id] that fits the integer
    type. *)
Theorem negative_ids_in_range pos m s (h : heap rng_state) :
  (forall st low high, low < high -> low <= fst (draw st low high) < high) ->
  1 <= m ->
  (forall out, returned (sample pos m s) h = Ok out ->
     Forall (fun neg => 1 <= neg <= m) (nth 2 out [])) /\
  (0 <= kwarg 0 s < 2 ^ 32 -> m < highbnd ->
     exists out, returned (sample pos m s) h = Ok out).
Proof.
  intros Hdraw Hm. split.
  - intros out. rewrite sample_triplets_returned.
    destruct (seed_ok (kwarg 0 s) && bound_ok m); [|discriminate].
    intros [= <-]. simpl.
    eapply Forall_impl; [|apply draws_range; intros st'; apply Hdraw; lia].
    simpl. intros neg. lia.
  - intros Hs Hhi. apply sample_triplets_total; [assumption | lia].
Qed.

(** C10. Two calls of [sample_triplets] on the same table and the same
    [max_item_id] with seeds [s1] and [s2]: when both return, their anchor
    user ids are the same sequence and their positive item ids are the same
    sequence (the two columns of the table); for two seeds of 32 bits the
    calls return or raise alike, so that the seed shows in the negative item
    ids only. *)
Theorem seed_moves_negatives_only pos m s1 s2 (h1 h2 : heap rng_state) :
  (forall out1 out2,
     returned (sample pos m s1) h1 = Ok out1 ->
     returned (sample pos m s2) h2 = Ok out2 ->
     nth 0 out1 [] = nth 0 out2 [] /\ nth 1 out1 [] = nth 1 out2 [] /\
     nth 0 out1 [] = values user_id pos /\ nth 1 out1 [] = values item_id pos) /\
  (0 <= kwarg 0 s1 < 2 ^ 32 -> 0 <= kwarg 0 s2 < 2 ^ 32 ->
     map_result (firstn 2) (returned (sample pos m s1) h1) =
     map_result (firstn 2) (returned (sample pos m s2) h2)).
Proof.
  rewrite !sample_triplets_returned. split.
  - intros out1 out2.
    destruct (seed_ok (kwarg 0 s1) && bound_ok m); [|discriminate].
    destruct (seed_ok (kwarg 0 s2) && bound_ok m); [|discriminate].
    intros [= <-] [= <-]. simpl. auto.
  - intros H1 H2.
    rewrite (proj2 (seed_ok_iff _) H1), (proj2 (seed_ok_iff _) H2).
    simpl. destruct (bound_ok m); reflexivity.
Qed.

End SamplerFacts.

Lemma counter_draw_range st low high :
  low < high -> low <= fst (counter_draw st low high) < high.
Proof.
  intros H. unfold counter_draw. simpl.
  pose proof (Z.mod_pos_bound st (high - low)). lia.
Qed.

Lemma sample_triplets_shape_witness :
  returned (sample_triplets counter_init counter_draw three_rows 20 (Some 0)) []
    = Ok [[1; 1; 2]; [10; 12; 5]; [4; 17; 2]] /\
  exists neg_item_ids,
    [[1; 1; 2]; [10; 12; 5]; [4; 17; 2]]
      = [values user_id three_rows; values item_id three_rows; neg_item_ids] /\
    length [[1; 1; 2]; [10; 12; 5]; [4; 17; 2]] = 3%nat /\
    length (values user_id three_rows) = length three_rows /\
    length (values item_id three_rows) = length three_rows /\
    length neg_item_ids = length three_rows.
Proof.
  split; [reflexivity|].
  exact (proj1 (sample_triplets_shape Z counter_init counter_draw
                  three_rows 20 (Some 0) []) _ eq_refl).
Defined.

Lemma negative_ids_in_range_witness :
  1 <= 20 /\
  returned (sample_triplets counter_init counter_draw three_rows 20 (Some 0)) []
    = Ok [[1; 1; 2]; [10; 12; 5]; [4; 17; 2]] /\
  Forall (fun neg => 1 <= neg <= 20) [4; 17; 2].
Proof.
  split; [lia|]. split; [reflexivity|].
  exact (proj1 (negative_ids_in_range Z counter_init counter_draw
                  three_rows 20 (Some 0) [] counter_draw_range ltac:(lia))
           _ eq_refl).
Defined.

Lemma seed_moves_negatives_only_witness :
  returned (sample_triplets counter_init counter_draw three_rows 20 (Some 0)) []
    = Ok [[1; 1; 2]; [10; 12; 5]; [4; 17; 2]] /\
  returned (sample_triplets counter_init counter_draw three_rows 20 (Some 1)) []
    = Ok [[1; 1; 2]; [10; 12; 5]; [11; 12; 17]] /\
  [1; 1; 2] = [1; 1; 2] /\ [10; 12; 5] = [10; 12; 5] /\
  [1; 1; 2] = values user_id three_rows /\
  [10; 12; 5] = values item_id three_rows.
Proof.
  split; [reflexivity|]. split; [reflexivity|].
  exact (proj1 (seed_moves_negatives_only Z counter_init counter_draw
                  three_rows 20 (Some 0) (Some 1) [] [])
           _ _ eq_refl eq_refl).
Defined.

(** ** The ranking evaluator *)

Lemma isin_In x l : isin x l = true <-> In x l.
Proof.
  unfold isin. rewrite existsb_exists. split.
  - intros [y [Hy E]]. apply Z.eqb_eq in E. now subst.
  - intros H. exists x. split; [assumption | apply Z.eqb_refl].
Qed.

Lemma insert_unique_In x y l : In x (insert_unique y l) <-> x = y \/ In x l.
Proof.
  induction l as [|z l IH]; simpl.
  - intuition.
  - destruct (y <? z); [simpl; intuition|].
    destruct (Z.eqb_spec y z) as [->|Hne]; simpl.
    + intuition.
    + rewrite IH. intuition.
Qed.

Lemma np_unique_In x l : In x (np_unique l) <-> In x l.
Proof.
  induction l as [|y l IH]; simpl; [tauto|].
  rewrite insert_unique_In, IH. intuition.
Qed.

Lemma isin_np_unique x l : isin x (np_unique l) = isin x l.
Proof.
  apply eq_iff_eq_true. now rewrite !isin_In, np_unique_In.
Qed.

Lemma np_unique_increasing (f : nat -> Z) n k :
  (forall i, f i < f (S i)) ->
  np_unique (map f (seq k n)) = map f (seq k n).
Proof.
  intros Hf. revert k. induction n as [|n IH]; intros k; [reflexivity|].
  simpl. unfold np_unique in IH. rewrite IH.
  destruct n as [|n]; [reflexivity|].
  simpl. now rewrite (proj2 (Z.ltb_lt _ _) (Hf k)).
Qed.

Lemma np_unique_interval start stop :
  np_unique (interval start stop) = interval start stop.
Proof.
  unfold interval. apply np_unique_increasing. intros i. lia.
Qed.

Lemma interval_In start stop x : In x (interval start stop) <-> start <= x < stop.
Proof.
  unfold interval. rewrite in_map_iff. split.
  - intros [i [<- Hi]]. apply in_seq in Hi. lia.
  - intros H. exists (Z.to_nat (x - start)). split; [lia|].
    apply in_seq. lia.
Qed.

Lemma interval_NoDup start stop : NoDup (interval start stop).
Proof.
  unfold interval. apply Injective_map_NoDup; [|apply seq_NoDup].
  intros i j. lia.
Qed.

Lemma np_setdiff1d_interval start stop ar2 :
  np_setdiff1d (interval start stop) ar2 =
  filter (fun i => negb (isin i ar2)) (interval start stop).
Proof.
  unfold np_setdiff1d. rewrite np_unique_interval.
  apply filter_ext. intros i. now rewrite isin_np_unique.
Qed.

Lemma reach_plus_one m : plus_one (Some m) = Some (reach m + 1).
Proof.
  unfold plus_one, reach. simpl. destruct (m =? int64_max); f_equal; lia.
Qed.

Lemma reach_le m : reach m <= m.
Proof.
  unfold reach. destruct (Z.eqb_spec m int64_max) as [->|_]; [|lia].
  unfold int64_max. lia.
Qed.

Lemma reach_below m : m < int64_max -> reach m = m.
Proof.
  intros H. unfold reach. destruct (Z.eqb_spec m int64_max); [lia | reflexivity].
Qed.

Lemma reach_wrapped m : reach m = m \/ reach m < 0.
Proof.
  unfold reach. destruct (m =? int64_max); [right | left]; lia.
Qed.

Lemma items_to_rank_candidates data_train m u :
  items_to_rank data_train (Some m) u = Ok (candidate_items data_train (reach m) u).
Proof.
  unfold items_to_rank, candidate_items, train_items. rewrite reach_plus_one.
  simpl. now rewrite np_setdiff1d_interval.
Qed.

Lemma expected_labels data_test candidates u :
  expected data_test candidates u = map (label data_test u) candidates.
Proof. reflexivity. Qed.

Lemma np_sum_cons b flags : np_sum (b :: flags) = (if b then 1 else 0) + np_sum flags.
Proof. reflexivity. Qed.

Lemma np_sum_nonneg flags : 0 <= np_sum flags.
Proof.
  induction flags as [|b flags IH]; [reflexivity|].
  rewrite np_sum_cons. destruct b; lia.
Qed.

Lemma np_sum_existsb flags : (1 <=? np_sum flags) = existsb (fun b => b) flags.
Proof.
  induction flags as [|b flags IH]; [reflexivity|].
  rewrite np_sum_cons. pose proof (np_sum_nonneg flags) as H.
  destruct b; cbn [existsb orb].
  - apply Z.leb_le. lia.
  - rewrite Z.add_0_l. exact IH.
Qed.

Lemma predict_repeat (match_model : model) u candidates :
  predict match_model (repeat u (length candidates)) candidates
  = map (match_model u) candidates.
Proof.
  unfold predict. induction candidates as [|i l IH]; simpl; [reflexivity|].
  now rewrite IH.
Qed.

Lemma existsb_map {A B} (f : A -> B) (p : B -> bool) l :
  existsb p (map f l) = existsb (fun x => p (f x)) l.
Proof.
  induction l as [|x l IH]; simpl; [reflexivity | now rewrite IH].
Qed.

Lemma py_sum_from (xs : list Q) (a : Q) :
  (fold_left Qplus xs a == a + reduce_sum xs)%Q.
Proof.
  revert a. induction xs as [|x xs IH]; intros a; simpl.
  - ring.
  - rewrite IH. ring.
Qed.

Lemma py_sum_reduce_sum (xs : list Q) : (py_sum xs == reduce_sum xs)%Q.
Proof.
  unfold py_sum. rewrite py_sum_from. ring.
Qed.

Lemma series_max_spec column m :
  series_max column = Some m ->
  In m column /\ forall x, In x column -> x <= m.
Proof.
  destruct column as [|x rest]; [discriminate|]. simpl. intros [= <-].
  revert x. induction rest as [|y rest IH]; intros x; simpl.
  - split; [now left|]. intros z [<-|[]]. lia.
  - destruct (IH (Z.max x y)) as [Hin Hle]. split.
    + destruct Hin as [E|Hin]; [|now right; right].
      rewrite <- E. destruct (Z.max_spec x y) as [[_ ->]|[_ ->]]; auto.
    + pose proof (Hle (Z.max x y) (or_introl eq_refl)) as Htop.
      intros z [E|[E|Hz]]; [lia | lia | apply Hle; now right].
Qed.

Lemma series_max_none column : series_max column = None <-> column = [].
Proof.
  destruct column; simpl; split; congruence.
Qed.

Lemma py_max_spec (col : interaction -> Z) (data_train data_test : DataFrame) m :
  py_max (series_max (values col data_train)) (series_max (values col data_test))
    = Some m ->
  In m (values col (data_train ++ data_test)) /\
  forall x, In x (values col (data_train ++ data_test)) -> x <= m.
Proof.
  unfold values. rewrite map_app.
  destruct (series_max (map col data_train)) as [x|] eqn:Ex; [|discriminate].
  apply series_max_spec in Ex. destruct Ex as [Hx Hxmax].
  destruct (series_max (map col data_test)) as [y|] eqn:Ey; simpl.
  - apply series_max_spec in Ey. destruct Ey as [Hy Hymax].
    intros [= <-]. destruct (Z.ltb_spec x y); split.
    + apply in_or_app. now right.
    + intros z Hz. apply in_app_or in Hz. destruct Hz as [Hz|Hz].
      * specialize (Hxmax z Hz). lia.
      * now apply Hymax.
    + apply in_or_app. now left.
    + intros z Hz. apply in_app_or in Hz. destruct Hz as [Hz|Hz].
      * now apply Hxmax.
      * specialize (Hymax z Hz). lia.
  - apply series_max_none in Ey. rewrite Ey, app_nil_r.
    intros [= <-]. split; assumption.
Qed.

Lemma local_maxima (data_train data_test : DataFrame) :
  match data_train with
  | [] => local_max_user_id data_train data_test = None /\
          local_max_item_id data_train data_test = None
  | _ => exists max_user_id max_item_id,
          local_max_user_id data_train data_test = Some max_user_id /\
          local_max_item_id data_train data_test = Some max_item_id
  end.
Proof.
  unfold local_max_user_id, local_max_item_id.
  destruct data_train as [|row data_train]; [split; reflexivity|].
  simpl.
  destruct (series_max (values user_id data_test)),
           (series_max (values item_id data_test)); simpl; eauto.
Qed.

Lemma ids_below_reach data_train data_test :
  ids_below_int64_max data_train data_test ->
  (forall m, local_max_user_id data_train data_test = Some m -> reach m = m) /\
  (forall m, local_max_item_id data_train data_test = Some m -> reach m = m).
Proof.
  intros Hids. split; intros m Hm; apply reach_below;
    apply py_max_spec in Hm; destruct Hm as [Hm _];
    unfold values in Hm; apply in_map_iff in Hm;
    destruct Hm as [row [<- Hrow]]; now apply Hids.
Qed.

Lemma candidate_items_reach data_train m u i :
  In i (candidate_items data_train (reach m) u) ->
  In i (candidate_items data_train m u).
Proof.
  unfold candidate_items. rewrite !filter_In, !interval_In.
  pose proof (reach_le m). intuition lia.
Qed.

Lemma non_skipped_users_reach_In data_train data_test mu mi u :
  In u (non_skipped_users data_train data_test (reach mu) (reach mi)) ->
  In u (non_skipped_users data_train data_test mu mi).
Proof.
  unfold non_skipped_users, skipped.
  rewrite !filter_In, !interval_In, !negb_involutive, !existsb_exists.
  pose proof (reach_le mu).
  intros [Hu [i [Hi Hl]]]. split; [lia|].
  exists i. split; [now apply candidate_items_reach | exact Hl].
Qed.

Lemma non_skipped_users_reach data_train data_test mu mi :
  non_skipped_users data_train data_test mu mi = [] ->
  non_skipped_users data_train data_test (reach mu) (reach mi) = [].
Proof.
  intros Hnone.
  destruct (non_skipped_users data_train data_test (reach mu) (reach mi))
    as [|u l] eqn:E; [reflexivity|].
  assert (H : In u (non_skipped_users data_train data_test (reach mu) (reach mi)))
    by (rewrite E; now left).
  apply non_skipped_users_reach_In in H. rewrite Hnone in H. destruct H.
Qed.

Lemma scenario_ids_below : ids_below_int64_max scenario_train scenario_test.
Proof.
  intros row Hrow. simpl in Hrow.
  repeat (destruct Hrow as [<-|Hrow]; [now vm_compute|]). destruct Hrow.
Qed.


Section EvaluatorFacts.

Variable roc_auc_score : list bool -> list Q -> result Q.
Variable match_model : model.

(** The body of [average_roc_auc], with its two local bounds named. *)
Lemma average_roc_auc_locals data_train data_test :
  average_roc_auc roc_auc_score match_model data_train data_test =
  (users <- py_range 1 (plus_one (local_max_user_id data_train data_test)) ;;
   user_auc_scores <-
     for_user_id roc_auc_score match_model data_train data_test
       (local_max_item_id data_train data_test) users [] ;;
   py_truediv (py_sum user_auc_scores) (Z.of_nat (length user_auc_scores))).
Proof. reflexivity. Qed.

Lemma for_user_id_traverse data_train data_test m users scores :
  for_user_id roc_auc_score match_model data_train data_test (Some m) users scores =
  (aucs <- traverse
             (user_auc roc_auc_score match_model data_train data_test (reach m))
             (filter (fun u => negb (skipped data_train data_test (reach m) u))
                users) ;;
   ret (scores ++ aucs)).
Proof.
  generalize (eq_refl (reach m)). generalize (reach m) at 2 3 4 as r.
  intros r Hr.
  revert scores. induction users as [|u users IH]; intros scores.
  - simpl. now rewrite app_nil_r.
  - cbn [for_user_id filter]. rewrite items_to_rank_candidates, Hr.
    cbn [bind Monad_result].
    rewrite expected_labels, np_sum_existsb, existsb_map, predict_repeat.
    assert (Hs : skipped data_train data_test r u =
                 negb (existsb (label data_test u) (candidate_items data_train r u)))
      by reflexivity.
    rewrite Hs. clear Hs.
    destruct (existsb (label data_test u) (candidate_items data_train r u)).
    + cbn [negb traverse bind Monad_result]. fold (user_auc roc_auc_score match_model data_train data_test r u).
      destruct (user_auc roc_auc_score match_model data_train data_test r u)
        as [auc|e]; [|reflexivity].
      rewrite IH. cbn [bind Monad_result ret].
      destruct (traverse _ _) as [aucs|e]; [|reflexivity].
      now rewrite <- app_assoc.
    + cbn [negb]. apply IH.
Qed.

Lemma average_roc_auc_run data_train data_test :
  average_roc_auc roc_auc_score match_model data_train data_test =
  match local_max_user_id data_train data_test,
        local_max_item_id data_train data_test with
  | Some max_user_id, Some max_item_id =>
      aucs <- traverse
                (user_auc roc_auc_score match_model data_train data_test
                   (reach max_item_id))
                (non_skipped_users data_train data_test
                   (reach max_user_id) (reach max_item_id)) ;;
      py_truediv (py_sum aucs) (Z.of_nat (length aucs))
  | _, _ => Err TypeError
  end.
Proof.
  unfold average_roc_auc.
  fold (local_max_user_id data_train data_test).
  fold (local_max_item_id data_train data_test).
  pose proof (local_maxima data_train data_test) as H.
  destruct data_train as [|row data_train].
  - destruct H as [-> ->]. reflexivity.
  - destruct H as [mu [mi [-> ->]]].
    rewrite reach_plus_one.
    cbn [py_range bind Monad_result].
    rewrite for_user_id_traverse. unfold non_skipped_users.
    destruct (traverse _ _) as [aucs|e]; reflexivity.
Qed.

(** Below the largest int64 the evaluator visits the users and ranks the
    items of the description. *)
Lemma average_roc_auc_below data_train data_test :
  ids_below_int64_max data_train data_test ->
  average_roc_auc roc_auc_score match_model data_train data_test =
  match local_max_user_id data_train data_test,
        local_max_item_id data_train data_test with
  | Some _, Some max_item_id =>
      aucs <- traverse
                (user_auc roc_auc_score match_model data_train data_test max_item_id)
                (eligible_users data_train data_test) ;;
      py_truediv (py_sum aucs) (Z.of_nat (length aucs))
  | _, _ => Err TypeError
  end.
Proof.
  intros Hids. rewrite average_roc_auc_run. unfold eligible_users.
  destruct (ids_below_reach _ _ Hids) as [Hu Hi].
  destruct (local_max_user_id data_train data_test) as [mu|]; [|reflexivity].
  destruct (local_max_item_id data_train data_test) as [mi|]; [|reflexivity].
  now rewrite (Hu mu eq_refl), (Hi mi eq_refl).
Qed.

Lemma py_mean_arithmetic_mean (xs : list Q) :
  result_Qeq (py_truediv (py_sum xs) (Z.of_nat (length xs))) (arithmetic_mean xs).
Proof.
  destruct xs as [|x xs]; [reflexivity|].
  unfold py_truediv, arithmetic_mean.
  destruct (Z.eqb_spec (Z.of_nat (length (x :: xs))) 0) as [E|_];
    [simpl in E; lia|].
  simpl result_Qeq. now rewrite py_sum_reduce_sum.
Qed.

(** The scenario with the pair-counting AUC and a model that scores an item
    by its id: item 20, the test positive of user 1, ranks first. *)
Example average_roc_auc_scenario :
  result_Qeq
    (average_roc_auc rank_auc (fun _ i => inject_Z i) scenario_train scenario_test)
    (Ok 1%Q).
Proof. vm_compute. reflexivity. Qed.

(** A user whose candidates are all test positives: the AUC is undefined and
    [roc_auc_score] raises. *)
Example average_roc_auc_one_class :
  average_roc_auc rank_auc (fun _ i => inject_Z i)
    [mkInteraction 1 1 5 0] [mkInteraction 1 2 5 0]
  = Err ValueError.
Proof. reflexivity. Qed.

(** C5. On tables whose ids are below the largest int64,
    [average_roc_auc] is the arithmetic mean of the AUC of the users
    that have a positive test candidate: the other users give no AUC value
    and do not count in the denominator. With user 1 (training positive 10,
    test positive 20) and user 2 (training positive 5, no test positive),
    user 1 alone is not skipped and the result is the AUC of user 1. *)
Theorem skipped_users_leave_the_mean :
  (forall data_train data_test,
     ids_below_int64_max data_train data_test ->
     result_Qeq (average_roc_auc roc_auc_score match_model data_train data_test)
                (mean_auc_of_non_skipped roc_auc_score match_model
                   data_train data_test)) /\
  (forall data_train data_test max_user_id max_item_id u,
     local_max_user_id data_train data_test = Some max_user_id ->
     local_max_item_id data_train data_test = Some max_item_id ->
     (In u (eligible_users data_train data_test) <->
      1 <= u <= max_user_id /\
      exists i, In i (candidate_items data_train max_item_id u) /\
                In i (test_items data_test u))) /\
  eligible_users scenario_train scenario_test = [1] /\
  result_Qeq (average_roc_auc roc_auc_score match_model scenario_train scenario_test)
             (user_auc roc_auc_score match_model scenario_train scenario_test 20 1).
Proof.
  split; [|split; [|split]].
  - intros data_train data_test Hids.
    rewrite (average_roc_auc_below _ _ Hids). unfold mean_auc_of_non_skipped.
    destruct (local_max_user_id data_train data_test); [|reflexivity].
    destruct (local_max_item_id data_train data_test); [|reflexivity].
    destruct (traverse _ _) as [aucs|e]; [|reflexivity].
    apply py_mean_arithmetic_mean.
  - intros data_train data_test mu mi u Hu Hi.
    unfold eligible_users, non_skipped_users. rewrite Hu, Hi.
    rewrite filter_In, interval_In, negb_true_iff.
    unfold skipped. rewrite negb_false_iff, existsb_exists.
    unfold label. setoid_rewrite isin_In.
    intuition lia.
  - reflexivity.
  - rewrite (average_roc_auc_below _ _ scenario_ids_below).
    change (local_max_user_id scenario_train scenario_test) with (Some 2).
    change (local_max_item_id scenario_train scenario_test) with (Some 20).
    change (eligible_users scenario_train scenario_test) with [1].
    cbn [traverse bind Monad_result].
    destruct (user_auc roc_auc_score match_model scenario_train scenario_test 20 1)
      as [auc|e]; [|reflexivity].
    cbn [ret Monad_result length]. unfold py_truediv, py_sum.
    simpl. field.
Qed.

(** The evaluator is its loop followed by the division. *)
Lemma average_roc_auc_division data_train data_test :
  average_roc_auc roc_auc_score match_model data_train data_test =
  (scores <- user_auc_scores roc_auc_score match_model data_train data_test ;;
   py_truediv (py_sum scores) (Z.of_nat (length scores))).
Proof.
  unfold average_roc_auc, user_auc_scores. cbv zeta.
  destruct (py_range 1 _); reflexivity.
Qed.

(** C7, as the code has it. When no user has a positive test candidate,
    [average_roc_auc] raises: the division of the empty sum by the length 0
    is a [ZeroDivisionError] (a [TypeError] on an empty training table, whose
    maximal user id is not a number); no number is returned. *)
Theorem no_eligible_user_raises data_train data_test :
  eligible_users data_train data_test = [] ->
  average_roc_auc roc_auc_score match_model data_train data_test =
    Err (match data_train with [] => TypeError | _ => ZeroDivisionError end) /\
  forall value,
    average_roc_auc roc_auc_score match_model data_train data_test <> Ok value.
Proof.
  intros Hnone.
  assert (H : average_roc_auc roc_auc_score match_model data_train data_test =
              Err (match data_train with [] => TypeError | _ => ZeroDivisionError end)).
  { rewrite average_roc_auc_run.
    pose proof (local_maxima data_train data_test) as H.
    destruct data_train as [|row data_train].
    - destruct H as [-> _]. reflexivity.
    - destruct H as [mu [mi [Hu Hi]]]. rewrite Hu, Hi.
      unfold eligible_users in Hnone. rewrite Hu, Hi in Hnone.
      rewrite (non_skipped_users_reach _ _ _ _ Hnone). reflexivity. }
  split; [exact H|]. intros value. rewrite H. discriminate.
Qed.

End EvaluatorFacts.

Lemma no_eligible_user_raises_witness :
  eligible_users scenario_train [] = [] /\
  average_roc_auc rank_auc (fun u i => inject_Z (u + i)) scenario_train []
    = Err ZeroDivisionError /\
  forall value,
    average_roc_auc rank_auc (fun u i => inject_Z (u + i)) scenario_train []
      <> Ok value.
Proof.
  split; [reflexivity|].
  exact (no_eligible_user_raises rank_auc (fun u i => inject_Z (u + i))
           scenario_train [] eq_refl).
Defined.

(** C7, as stated, fails: no guard stands before the final division. With
    the training table of the scenario and an empty test table no user is
    eligible; the loop ends with the empty list of scores, which reaches the
    division [sum([]) / len([])], and the exception is the one of that
    division. A guard would keep the empty list from the division. *)
Lemma empty_scores_reach_the_division :
  ~ (forall data_train data_test scores,
       eligible_users data_train data_test = [] ->
       user_auc_scores rank_auc score_by_item data_train data_test = Ok scores ->
       scores <> []).
Proof.
  intros claim.
  exact (claim scenario_train [] [] eq_refl eq_refl eq_refl).
Qed.

Lemma skipped_users_leave_the_mean_witness :
  ids_below_int64_max scenario_train scenario_test /\
  local_max_user_id scenario_train scenario_test = Some 2 /\
  local_max_item_id scenario_train scenario_test = Some 20 /\
  result_Qeq
    (average_roc_auc rank_auc (fun u i => inject_Z (u + i))
       scenario_train scenario_test)
    (mean_auc_of_non_skipped rank_auc (fun u i => inject_Z (u + i))
       scenario_train scenario_test) /\
  (In 1 (eligible_users scenario_train scenario_test) <->
   1 <= 1 <= 2 /\
   exists i, In i (candidate_items scenario_train 20 1) /\
             In i (test_items scenario_test 1)).
Proof.
  split; [exact scenario_ids_below|].
  split; [reflexivity|]. split; [reflexivity|]. split.
  - exact (proj1 (skipped_users_leave_the_mean rank_auc
                    (fun u i => inject_Z (u + i)))
             scenario_train scenario_test scenario_ids_below).
  - exact (proj1 (proj2 (skipped_users_leave_the_mean rank_auc
                           (fun u i => inject_Z (u + i))))
             scenario_train scenario_test 2 20 1 eq_refl eq_refl).
Defined.

(** C6, as the code has it. For every user, the candidates [average_roc_auc]
    scores are, without repetition, the item ids of [[1, m]] that are not
    among the user's items of the training table, where [m] is the largest
    item id of the two tables the evaluator is given, and is below the
    largest int64. *)
Theorem candidates_up_to_largest_given_id data_train data_test u m :
  local_max_item_id data_train data_test = Some m ->
  m < int64_max ->
  (In m (values item_id (data_train ++ data_test)) /\
   forall i, In i (values item_id (data_train ++ data_test)) -> i <= m) /\
  exists candidates,
    items_to_rank data_train (local_max_item_id data_train data_test) u
      = Ok candidates /\
    NoDup candidates /\
    forall i, In i candidates <->
              1 <= i <= m /\ ~ In i (train_items data_train u).
Proof.
  intros Hm Hbelow. split; [now apply py_max_spec|].
  rewrite Hm, items_to_rank_candidates, (reach_below _ Hbelow).
  eexists. split; [reflexivity|].
  unfold candidate_items. split.
  - apply NoDup_filter, interval_NoDup.
  - intros i. rewrite filter_In, interval_In, negb_true_iff.
    rewrite <- not_true_iff_false, isin_In. intuition lia.
Qed.

Lemma candidates_up_to_largest_given_id_witness :
  local_max_item_id (pos_data ratings_train) (pos_data ratings_test) = Some 2 /\
  2 < int64_max /\
  items_to_rank (pos_data ratings_train)
    (local_max_item_id (pos_data ratings_train) (pos_data ratings_test)) 1
    = Ok [2] /\
  exists candidates,
    items_to_rank (pos_data ratings_train)
      (local_max_item_id (pos_data ratings_train) (pos_data ratings_test)) 1
      = Ok candidates /\
    NoDup candidates /\
    forall i, In i candidates <->
              1 <= i <= 2 /\ ~ In i (train_items (pos_data ratings_train) 1).
Proof.
  split; [reflexivity|]. split; [reflexivity|]. split; [reflexivity|].
  exact (proj2 (candidates_up_to_largest_given_id
                  (pos_data ratings_train) (pos_data ratings_test) 1 2 eq_refl
                  eq_refl)).
Defined.

(** C6, as stated, fails. The notebook calls the evaluator on the positive
    tables; with training ratings (item 1: 5, item 3: 2) and test rating
    (item 2: 5) of user 1, [max_item_id] of the data is 3 and item 3 is not a
    training positive of user 1, yet the candidates are [[2]]. *)
Lemma candidates_miss_top_items_without_positive :
  ~ (forall (data_train data_test : DataFrame) (u m : Z) (candidates : list Z),
       notebook_max_item_id data_train data_test = Some m ->
       items_to_rank (pos_data data_train)
         (local_max_item_id (pos_data data_train) (pos_data data_test)) u
         = Ok candidates ->
       forall i, In i candidates <->
                 1 <= i <= m /\ ~ In i (train_items (pos_data data_train) u)).
Proof.
  intros claim.
  pose proof (claim ratings_train ratings_test 1 3 [2] eq_refl eq_refl 3) as [_ H].
  assert (Hin : In 3 [2]).
  { apply H. split; [lia|]. simpl. intros [E|[]]. discriminate. }
  destruct Hin as [E|[]]. discriminate.
Qed.

(** ** Release year of an item *)

Lemma split_nonempty sep s : split sep s <> [].
Proof.
  destruct s as [|c rest]; simpl; [discriminate|].
  destruct (Ascii.eqb c sep); [discriminate|].
  destruct (split sep rest); discriminate.
Qed.

Lemma split_length sep s : length (split sep s) = S (count_char sep s).
Proof.
  induction s as [|c rest IH]; [reflexivity|].
  simpl. destruct (Ascii.eqb c sep); simpl.
  - now rewrite IH.
  - pose proof (split_nonempty sep rest) as Hne.
    destruct (split sep rest) as [|w ws]; [contradiction|].
    simpl in *. exact IH.
Qed.

Example extract_year_runs :
  extract_year (Text "01-Jan-1995") = Ok 1995 /\
  extract_year (Text "") = Ok 1920 /\
  extract_year (Text "1995") = Ok 1920 /\
  extract_year (Text "4-Feb-1971 ") = Ok 1971 /\
  extract_year (Text "1995-01-01") = Ok 1 /\
  extract_year (Text "01-Jan-") = Err ValueError.
Proof. repeat split. Qed.

(** C8, as the code has it. [extract_year] returns 1920 for a missing
    value and for every string that does not hold exactly two ['-'], that
    is, that does not split into three components; for a string of three
    components it is [int] of the third one: its value, or the [ValueError]
    of [int] when the component is not an integer literal. *)
Theorem extract_year_fallback :
  extract_year Missing = Ok 1920 /\
  (forall s, count_char "-" s <> 2%nat -> extract_year (Text s) = Ok 1920) /\
  (forall s, count_char "-" s = 2%nat ->
     extract_year (Text s) = py_int (nth 2 (split "-" s) EmptyString)).
Proof.
  split; [reflexivity|]. split; intros s Hs; unfold extract_year;
    rewrite split_length.
  - destruct (Nat.eqb_spec (S (count_char "-" s)) 3) as [E|_]; [lia | reflexivity].
  - now rewrite Hs.
Qed.

Lemma extract_year_fallback_witness :
  count_char "-" "unknown" <> 2%nat /\
  extract_year (Text "unknown") = Ok 1920 /\
  count_char "-" "01-Jan-1995" = 2%nat /\
  extract_year (Text "01-Jan-1995") = Ok 1995.
Proof.
  assert (H0 : count_char "-" "unknown" <> 2%nat) by (simpl; lia).
  split; [exact H0|].
  split; [exact (proj1 (proj2 extract_year_fallback) "unknown"%string H0)|].
  split; [reflexivity|].
  exact (proj2 (proj2 extract_year_fallback) "01-Jan-1995"%string eq_refl).
Defined.

(** C8, as stated, fails: ["01-Jan-19x5"] is not a well-formed date, and
    [extract_year] raises [ValueError] on it. *)
Lemma malformed_year_raises :
  well_formed_date (Text "01-Jan-19x5") = false /\
  extract_year (Text "01-Jan-19x5") = Err ValueError /\
  ~ (forall release_date,
       well_formed_date release_date = false ->
       extract_year release_date = Ok 1920).
Proof.
  split; [reflexivity|]. split; [reflexivity|].
  intros claim. specialize (claim (Text "01-Jan-19x5") eq_refl). discriminate.
Qed.

(** ** float32 *)

(** Some float32 values: 1/3 and 1/10 are rounded, a tie goes to the even
    neighbour, the numbers from [2 ^ 128 - 2 ^ 103] overflow, half of the
    smallest subnormal number underflows to 0. *)
Example round32_values :
  round32 (1 # 3) = Finite (11184811 # 33554432) /\
  round32 (1 # 10) = Finite (13421773 # 134217728) /\
  round32 (1 - (1 # 2 ^ 25)) = Finite 1 /\
  round32 (1 + (3 # 2 ^ 24)) = Finite (Qred (1 + (1 # 2 ^ 22))) /\
  round32 (inject_Z (2 ^ 128 - 2 ^ 103 - 1)) = Finite (inject_Z (2 ^ 128 - 2 ^ 104)) /\
  round32 (inject_Z (2 ^ 128 - 2 ^ 103)) = PosInf /\
  round32 (- inject_Z (2 ^ 128)) = NegInf /\
  round32 (1 # 2 ^ 149) = Finite (1 # 2 ^ 149) /\
  round32 (1 # 2 ^ 150) = Finite 0.
Proof. vm_compute. repeat split; reflexivity. Qed.

Example float32_operations :
  fmul (Finite 0) PosInf = NaN /\
  fsub PosInf PosInf = NaN /\
  fadd (Finite 1) (Finite (1 # 2 ^ 24)) = Finite 1 /\
  fadd (Finite 1) (Finite (3 # 2 ^ 24)) = Finite (Qred (1 + (1 # 2 ^ 22))) /\
  fmax NegInf (Finite 0) = Finite 0.
Proof. vm_compute. repeat split; reflexivity. Qed.

Lemma pow2_pos e : (0 < pow2 e)%Q.
Proof. apply Qpower_0_lt. reflexivity. Qed.

Lemma pow2_plus a b : (pow2 (a + b) == pow2 a * pow2 b)%Q.
Proof. apply Qpower_plus. discriminate. Qed.

Lemma pow2_le a b : a <= b -> (pow2 a <= pow2 b)%Q.
Proof. intros H. apply Qpower_le_compat_l; [exact H | discriminate]. Qed.

Lemma pow2_lt a b : a < b -> (pow2 a < pow2 b)%Q.
Proof. intros H. apply Qpower_lt_compat_l; [exact H | reflexivity]. Qed.

Lemma pow2_inject n : 0 <= n -> (inject_Z (2 ^ n) == pow2 n)%Q.
Proof. intros H. now apply Zpower_Qpower. Qed.

Lemma pow2_le_inv a b : (pow2 a < pow2 b)%Q -> a < b.
Proof.
  intros H. destruct (Z.lt_ge_cases a b) as [|Hge]; [assumption|].
  apply pow2_le in Hge. lra.
Qed.

Lemma ilog2_spec q : (0 < q)%Q -> (pow2 (ilog2 q) <= q < pow2 (ilog2 q + 1))%Q.
Proof.
  intros Hq. unfold ilog2.
  destruct q as [a b]. cbn [Qnum Qden].
  assert (Ha : 0 < a) by (unfold Qlt in Hq; simpl in Hq; lia).
  pose proof (Z.log2_spec a Ha) as [Ha1 Ha2].
  pose proof (Z.log2_spec (Zpos b) eq_refl) as [Hb1 Hb2].
  pose proof (Z.log2_nonneg a) as Hla. pose proof (Z.log2_nonneg (Zpos b)) as Hlb.
  set (la := Z.log2 a) in *. set (lb := Z.log2 (Zpos b)) in *.
  assert (HA1 : (pow2 la <= inject_Z a)%Q).
  { rewrite <- pow2_inject by assumption. now rewrite <- Zle_Qle. }
  assert (HA2 : (inject_Z a < pow2 (la + 1))%Q).
  { rewrite <- pow2_inject by lia. rewrite <- Zlt_Qlt. exact Ha2. }
  assert (HB1 : (pow2 lb <= inject_Z (Zpos b))%Q).
  { rewrite <- pow2_inject by assumption. now rewrite <- Zle_Qle. }
  assert (HB2 : (inject_Z (Zpos b) < pow2 (lb + 1))%Q).
  { rewrite <- pow2_inject by lia. rewrite <- Zlt_Qlt. exact Hb2. }
  assert (Hq' : ((a # b) * inject_Z (Zpos b) == inject_Z a)%Q).
  { unfold Qeq, Qmult, inject_Z. simpl. lia. }
  pose proof (pow2_pos lb) as Hplb.
  pose proof (pow2_pos (la - lb)) as Hpe.
  pose proof (pow2_pos (la - lb - 1)) as Hpe1.
  pose proof (pow2_pos (la - lb + 1)) as Hpe2.
  assert (E1 : (pow2 (la - lb + 1) * pow2 lb == pow2 (la + 1))%Q).
  { rewrite <- pow2_plus. now replace (la - lb + 1 + lb) with (la + 1) by lia. }
  assert (E2 : (pow2 (la - lb - 1) * pow2 (lb + 1) == pow2 la)%Q).
  { rewrite <- pow2_plus. now replace (la - lb - 1 + (lb + 1)) with la by lia. }
  assert (Hup : (a # b < pow2 (la - lb + 1))%Q).
  { apply Qnot_le_lt. intros Hc.
    assert (Hx : (pow2 (la - lb + 1) * pow2 lb <= (a # b) * inject_Z (Zpos b))%Q).
    { apply Qle_trans with ((a # b) * pow2 lb)%Q.
      - apply Qmult_le_compat_r; [assumption | now apply Qlt_le_weak].
      - rewrite !(Qmult_comm (a # b)). apply Qmult_le_compat_r; [assumption|].
        now apply Qlt_le_weak. }
    lra. }
  destruct (Qle_bool (pow2 (la - lb)) (a # b)) eqn:Etest.
  - apply Qle_bool_iff in Etest. split; assumption.
  - replace (la - lb - 1 + 1) with (la - lb) by lia. split.
    + apply Qnot_lt_le. intros Hc.
      assert (Hy : ((a # b) * inject_Z (Zpos b) < pow2 (la - lb - 1) * pow2 (lb + 1))%Q).
      { apply Qle_lt_trans with ((a # b) * pow2 (lb + 1))%Q.
        - rewrite !(Qmult_comm (a # b)). apply Qmult_le_compat_r; [lra|].
          now apply Qlt_le_weak.
        - apply Qmult_lt_compat_r; [apply pow2_pos | assumption]. }
      lra.
    + apply Qnot_le_lt. intros Hc. apply Qle_bool_iff in Hc. congruence.
Qed.

Lemma ilog2_unique q e :
  (pow2 e <= q < pow2 (e + 1))%Q -> ilog2 q = e.
Proof.
  intros [H1 H2].
  assert (Hq : (0 < q)%Q) by (pose proof (pow2_pos e); lra).
  destruct (ilog2_spec q Hq) as [S1 S2].
  assert (ilog2 q < e + 1) by (apply pow2_le_inv; lra).
  assert (e < ilog2 q + 1) by (apply pow2_le_inv; lra).
  lia.
Qed.

Lemma ilog2_mono x y : (0 < x)%Q -> (x <= y)%Q -> ilog2 x <= ilog2 y.
Proof.
  intros Hx Hxy.
  destruct (ilog2_spec x Hx) as [X1 X2].
  destruct (ilog2_spec y ltac:(lra)) as [Y1 Y2].
  assert (ilog2 x < ilog2 y + 1) by (apply pow2_le_inv; lra).
  lia.
Qed.

Lemma ilog2_comp x y : (0 < x)%Q -> (x == y)%Q -> ilog2 x = ilog2 y.
Proof.
  intros Hx E. symmetry. apply ilog2_unique. rewrite <- E. now apply ilog2_spec.
Qed.

Lemma rne_floor t : rne t = Qfloor t \/ rne t = Qfloor t + 1.
Proof.
  unfold rne. destruct (_ ?= _)%Q; [destruct (Z.even _)| |]; auto.
Qed.

Lemma rne_comp x y : (x == y)%Q -> rne x = rne y.
Proof.
  intros E. unfold rne. rewrite (Qfloor_comp _ _ E).
  assert (Ec : (x - inject_Z (Qfloor y) ?= 1 # 2)%Q
               = (y - inject_Z (Qfloor y) ?= 1 # 2)%Q).
  { apply Qcompare_comp; [|reflexivity]. now rewrite E. }
  now rewrite Ec.
Qed.

Lemma rne_int k : rne (inject_Z k) = k.
Proof.
  unfold rne. rewrite Qfloor_Z.
  assert (E : (inject_Z k - inject_Z k ?= 1 # 2)%Q = Lt).
  { apply -> Qlt_alt. lra. }
  now rewrite E.
Qed.

Lemma rne_le_int t k : (t <= inject_Z k)%Q -> rne t <= k.
Proof.
  intros H.
  destruct (Qlt_le_dec t (inject_Z k)) as [Hlt|Hge].
  - assert (Qfloor t < k).
    { pose proof (Qfloor_le t) as Hf. rewrite Zlt_Qlt. lra. }
    destruct (rne_floor t); lia.
  - rewrite (rne_comp t (inject_Z k)) by lra. rewrite rne_int. lia.
Qed.

Lemma rne_ge_int t k : (inject_Z k <= t)%Q -> k <= rne t.
Proof.
  intros H.
  assert (k <= Qfloor t).
  { apply Qfloor_resp_le in H. now rewrite Qfloor_Z in H. }
  destruct (rne_floor t); lia.
Qed.

Lemma rne_mono x y : (x <= y)%Q -> rne x <= rne y.
Proof.
  intros H. pose proof (Qfloor_resp_le _ _ H) as Hf.
  destruct (Z.eq_dec (Qfloor x) (Qfloor y)) as [E|Hne].
  - unfold rne. rewrite <- E.
    destruct (x - inject_Z (Qfloor x) ?= 1 # 2)%Q eqn:Ex;
      destruct (y - inject_Z (Qfloor x) ?= 1 # 2)%Q eqn:Ey;
      try (destruct (Z.even (Qfloor x))); try lia;
      try apply <- Qeq_alt in Ex; try apply <- Qlt_alt in Ex;
      try apply <- Qgt_alt in Ex;
      try apply <- Qeq_alt in Ey; try apply <- Qlt_alt in Ey;
      try apply <- Qgt_alt in Ey;
      lra.
  - destruct (rne_floor x), (rne_floor y); lia.
Qed.

Lemma Qdiv_le_pos x y d : (0 < d)%Q -> (x <= y)%Q -> (x / d <= y / d)%Q.
Proof.
  intros Hd H. unfold Qdiv. apply Qmult_le_compat_r; [assumption|].
  apply Qinv_le_0_compat. now apply Qlt_le_weak.
Qed.

Lemma scale_grid k a e :
  e <= a -> (inject_Z k * pow2 a / pow2 e == inject_Z (k * 2 ^ (a - e)))%Q.
Proof.
  intros H. rewrite inject_Z_mult, pow2_inject by lia.
  replace a with (a - e + e) at 1 by lia. rewrite pow2_plus.
  pose proof (pow2_pos e). field. lra.
Qed.

Lemma ulp_exponent_ge q : -149 <= ulp_exponent q.
Proof. unfold ulp_exponent. lia. Qed.

Lemma ulp_exponent_mono x y :
  (0 < x)%Q -> (x <= y)%Q -> ulp_exponent x <= ulp_exponent y.
Proof.
  intros Hx H. pose proof (ilog2_mono x y Hx H). unfold ulp_exponent. lia.
Qed.

Lemma nearest_pos_le_grid q k a :
  ulp_exponent q <= a -> (q <= inject_Z k * pow2 a)%Q ->
  (nearest_pos q <= inject_Z k * pow2 a)%Q.
Proof.
  intros Ha H. unfold nearest_pos. cbv zeta.
  set (e := ulp_exponent q) in *. pose proof (pow2_pos e) as He.
  assert (Ht : (q / pow2 e <= inject_Z (k * 2 ^ (a - e)))%Q).
  { rewrite <- scale_grid by assumption. now apply Qdiv_le_pos. }
  apply rne_le_int in Ht. rewrite Zle_Qle in Ht.
  apply Qle_trans with (inject_Z (k * 2 ^ (a - e)) * pow2 e)%Q.
  - apply Qmult_le_compat_r; [assumption | now apply Qlt_le_weak].
  - rewrite <- scale_grid by assumption. apply Qle_lteq. right. field. lra.
Qed.

Lemma nearest_pos_ge_grid q k a :
  ulp_exponent q <= a -> (inject_Z k * pow2 a <= q)%Q ->
  (inject_Z k * pow2 a <= nearest_pos q)%Q.
Proof.
  intros Ha H. unfold nearest_pos. cbv zeta.
  set (e := ulp_exponent q) in *. pose proof (pow2_pos e) as He.
  assert (Ht : (inject_Z (k * 2 ^ (a - e)) <= q / pow2 e)%Q).
  { rewrite <- scale_grid by assumption. now apply Qdiv_le_pos. }
  apply rne_ge_int in Ht. rewrite Zle_Qle in Ht.
  apply Qle_trans with (inject_Z (k * 2 ^ (a - e)) * pow2 e)%Q.
  - rewrite <- scale_grid by assumption. apply Qle_lteq. right. field. lra.
  - apply Qmult_le_compat_r; [assumption | now apply Qlt_le_weak].
Qed.

Lemma nearest_pos_nonneg q : (0 <= q)%Q -> (0 <= nearest_pos q)%Q.
Proof.
  intros H.
  assert (E : (0 == inject_Z 0 * pow2 (ulp_exponent q))%Q) by ring.
  rewrite E at 1. apply nearest_pos_ge_grid; [lia|]. now rewrite <- E.
Qed.

Lemma nearest_pos_mono x y :
  (0 < x)%Q -> (x <= y)%Q -> (nearest_pos x <= nearest_pos y)%Q.
Proof.
  intros Hx H.
  pose proof (ulp_exponent_mono x y Hx H) as He.
  destruct (Z.eq_dec (ulp_exponent x) (ulp_exponent y)) as [E|Hne].
  - unfold nearest_pos. cbv zeta. rewrite E.
    pose proof (pow2_pos (ulp_exponent y)) as Hp.
    apply Qmult_le_compat_r; [|now apply Qlt_le_weak].
    rewrite <- Zle_Qle. apply rne_mono. now apply Qdiv_le_pos.
  - assert (Hy : (0 < y)%Q) by lra.
    destruct (ilog2_spec x Hx) as [_ X2]. destruct (ilog2_spec y Hy) as [Y1 _].
    assert (Hlog : ilog2 x + 1 <= ilog2 y) by (unfold ulp_exponent in *; lia).
    assert (Hey : ulp_exponent y <= ilog2 y) by (unfold ulp_exponent in *; lia).
    pose proof (pow2_le _ _ Hlog) as Hb.
    assert (E : (pow2 (ilog2 y) == inject_Z 1 * pow2 (ilog2 y))%Q) by ring.
    apply Qle_trans with (inject_Z 1 * pow2 (ilog2 y))%Q.
    + apply nearest_pos_le_grid; [lia|]. rewrite <- E. lra.
    + apply nearest_pos_ge_grid; [lia|]. rewrite <- E. lra.
Qed.

Lemma nearest_pos_comp x y :
  (0 < x)%Q -> (x == y)%Q -> (nearest_pos x == nearest_pos y)%Q.
Proof.
  intros Hx E. unfold nearest_pos, ulp_exponent. cbv zeta.
  rewrite (ilog2_comp x y Hx E).
  rewrite (rne_comp (x / pow2 (Z.max (ilog2 y - 23) (-149)))
                    (y / pow2 (Z.max (ilog2 y - 23) (-149)))); [reflexivity|].
  now rewrite E.
Qed.

Lemma nearest_pos_fix k e :
  0 < k < 2 ^ 24 -> -149 <= e ->
  (nearest_pos (inject_Z k * pow2 e) == inject_Z k * pow2 e)%Q.
Proof.
  intros Hk He. set (r := (inject_Z k * pow2 e)%Q).
  pose proof (pow2_pos e) as Hp.
  assert (Hr : (0 < r)%Q).
  { unfold r. apply Qmult_lt_0_compat; [|assumption].
    change 0%Q with (inject_Z 0). rewrite <- Zlt_Qlt. lia. }
  assert (Hup : (r < pow2 (e + 24))%Q).
  { unfold r. rewrite Z.add_comm, pow2_plus, <- (pow2_inject 24) by lia.
    apply Qmult_lt_compat_r; [assumption|]. rewrite <- Zlt_Qlt. lia. }
  destruct (ilog2_spec r Hr) as [R1 _].
  assert (Hlog : ilog2 r < e + 24) by (apply pow2_le_inv; lra).
  assert (Hule : ulp_exponent r <= e) by (unfold ulp_exponent; lia).
  apply Qle_antisym.
  - apply nearest_pos_le_grid; [assumption | apply Qle_refl].
  - apply nearest_pos_ge_grid; [assumption | apply Qle_refl].
Qed.

Lemma nearest_pos_grid q :
  (0 < q)%Q ->
  nearest_pos q == 0 \/
  exists k e, 0 < k < 2 ^ 24 /\ -149 <= e /\
              (nearest_pos q == inject_Z k * pow2 e)%Q.
Proof.
  intros Hq. pose proof (ulp_exponent_ge q) as He.
  set (e := ulp_exponent q) in *.
  set (k := rne (q / pow2 e)).
  assert (E : (nearest_pos q == inject_Z k * pow2 e)%Q) by reflexivity.
  pose proof (pow2_pos e) as Hp.
  assert (Hk0 : 0 <= k).
  { apply rne_ge_int. change (inject_Z 0) with 0%Q.
    apply Qle_shift_div_l; [assumption | lra]. }
  assert (Hk1 : k <= 2 ^ 24).
  { apply rne_le_int. rewrite <- (Z.mul_1_l (2 ^ 24)).
    replace 24 with (e + 24 - e) by lia.
    rewrite <- scale_grid by lia. apply Qdiv_le_pos; [assumption|].
    destruct (ilog2_spec q Hq) as [_ Q2].
    assert (ilog2 q + 1 <= e + 24) by (unfold e, ulp_exponent; lia).
    pose proof (pow2_le _ _ H). change (inject_Z 1) with 1%Q. lra. }
  destruct (Z.eq_dec k 0) as [K0|K0].
  { left. rewrite E, K0. ring. }
  right. destruct (Z.eq_dec k (2 ^ 24)) as [K1|K1].
  - exists (2 ^ 23), (e + 1). split; [lia|]. split; [lia|].
    rewrite E, K1, Z.add_comm, pow2_plus.
    change (pow2 1) with 2%Q. change (inject_Z (2 ^ 24)) with (2 * inject_Z (2 ^ 23))%Q.
    ring.
  - exists k, e. split; [lia|]. split; [lia|]. exact E.
Qed.

Lemma Qred_sign q :
  match Qnum (Qred q) with
  | Z0 => (q == 0)%Q
  | Zpos _ => (0 < q)%Q
  | Zneg _ => (q < 0)%Q
  end.
Proof.
  pose proof (Qred_correct q) as E.
  destruct (Qred q) as [[|n|n] d]; cbn [Qnum]; rewrite <- E; reflexivity.
Qed.

Lemma nearest_comp x y : (x == y)%Q -> nearest x = nearest y.
Proof.
  intros E. unfold nearest. now rewrite (Qred_complete x y E).
Qed.

Lemma nearest_cases q :
  ((q == 0)%Q /\ nearest q = 0%Q) \/
  ((0 < q)%Q /\ (nearest q == nearest_pos q)%Q) \/
  ((q < 0)%Q /\ (nearest q == - nearest_pos (- q))%Q).
Proof.
  pose proof (Qred_sign q) as Hs. pose proof (Qred_correct q) as E.
  unfold nearest. cbv zeta.
  destruct (Qnum (Qred q)).
  - left. split; [assumption | reflexivity].
  - right. left. split; [assumption|].
    rewrite Qred_correct. apply nearest_pos_comp; [now rewrite E | assumption].
  - right. right. split; [assumption|].
    rewrite Qred_correct. apply Qopp_comp.
    apply nearest_pos_comp; [rewrite E; lra | now rewrite E].
Qed.

Lemma nearest_canon q : Qred (nearest q) = nearest q.
Proof.
  unfold nearest. cbv zeta.
  destruct (Qnum (Qred q)); [reflexivity | |];
    apply Qred_complete, Qred_correct.
Qed.

Lemma nearest_sign q :
  ((0 <= q)%Q -> (0 <= nearest q)%Q) /\ ((q <= 0)%Q -> (nearest q <= 0)%Q).
Proof.
  destruct (nearest_cases q) as [[E ->]|[[Hq E]|[Hq E]]].
  - split; intros _; apply Qle_refl.
  - pose proof (nearest_pos_nonneg q ltac:(lra)). split; intros; lra.
  - pose proof (nearest_pos_nonneg (- q) ltac:(lra)). split; intros; lra.
Qed.

Lemma nearest_mono x y : (x <= y)%Q -> (nearest x <= nearest y)%Q.
Proof.
  intros H.
  destruct (nearest_cases x) as [[Ex Nx]|[[Hx Nx]|[Hx Nx]]];
    destruct (nearest_cases y) as [[Ey Ny]|[[Hy Ny]|[Hy Ny]]];
    try lra; rewrite ?Nx, ?Ny.
  - apply Qle_refl.
  - now apply nearest_pos_nonneg, Qlt_le_weak.
  - apply nearest_pos_mono; assumption.
  - pose proof (nearest_pos_nonneg (- x) ltac:(lra)). lra.
  - pose proof (nearest_pos_nonneg (- x) ltac:(lra)).
    pose proof (nearest_pos_nonneg y ltac:(lra)). lra.
  - pose proof (nearest_pos_mono (- y) (- x) ltac:(lra) ltac:(lra)). lra.
Qed.

Lemma nearest_opp q : (nearest (- q) == - nearest q)%Q.
Proof.
  destruct (nearest_cases q) as [[E N]|[[Hq N]|[Hq N]]];
    destruct (nearest_cases (- q)) as [[E' N']|[[Hq' N']|[Hq' N']]];
    try lra; rewrite N, N'; try reflexivity; try ring.
  apply Qopp_comp. apply nearest_pos_comp; [lra | ring].
Qed.

Lemma nearest_idem q : nearest (nearest q) = nearest q.
Proof.
  assert (Hpos : forall x, (0 < x)%Q -> (nearest (nearest x) == nearest x)%Q).
  { intros x Hx.
    destruct (nearest_cases x) as [[E N]|[[_ N]|[Hx' N]]]; try lra.
    destruct (nearest_pos_grid x Hx) as [E0|[k [e [Hk [He E]]]]].
    - rewrite (nearest_comp (nearest x) 0) by (now rewrite N).
      rewrite N, E0. reflexivity.
    - assert (Er : (nearest x == inject_Z k * pow2 e)%Q) by (now rewrite N).
      rewrite (nearest_comp _ _ Er), Er.
      assert (Hr : (0 < inject_Z k * pow2 e)%Q).
      { apply Qmult_lt_0_compat; [|apply pow2_pos].
        change 0%Q with (inject_Z 0). rewrite <- Zlt_Qlt. lia. }
      destruct (nearest_cases (inject_Z k * pow2 e)) as [[E' _]|[[_ N']|[H' _]]];
        try lra.
      rewrite N'. now apply nearest_pos_fix. }
  assert (Hq : (nearest (nearest q) == nearest q)%Q).
  { destruct (Qlt_le_dec 0 q) as [H|H]; [now apply Hpos|].
    destruct (Qlt_le_dec q 0) as [H'|H'].
    - assert (E : (nearest q == - nearest (- q))%Q).
      { rewrite (nearest_comp q (- - q)) by ring. apply nearest_opp. }
      rewrite (nearest_comp _ _ E), nearest_opp, E.
      apply Qopp_comp. apply Hpos. lra.
    - rewrite (nearest_comp q 0) by lra. reflexivity. }
  etransitivity; [symmetry; apply nearest_canon|].
  etransitivity; [|apply nearest_canon]. now apply Qred_complete.
Qed.

Lemma round32_cases q :
  (round32 q = PosInf /\ (pow2 128 <= nearest q)%Q) \/
  (round32 q = NegInf /\ (nearest q <= - pow2 128)%Q) \/
  (round32 q = Finite (nearest q) /\ (- pow2 128 < nearest q < pow2 128)%Q).
Proof.
  unfold round32. cbv zeta.
  destruct (Qle_bool (pow2 128) (nearest q)) eqn:E1.
  - left. split; [reflexivity | now apply Qle_bool_iff].
  - destruct (Qle_bool (nearest q) (- pow2 128)) eqn:E2.
    + right. left. split; [reflexivity | now apply Qle_bool_iff].
    + right. right. split; [reflexivity|]. split; apply Qnot_le_lt; intros Hc;
        apply Qle_bool_iff in Hc; congruence.
Qed.


Lemma round32_finite q r :
  round32 q = Finite r ->
  r = nearest q /\ nearest r = r /\ (- pow2 128 < r < pow2 128)%Q.
Proof.
  destruct (round32_cases q) as [[-> _]|[[-> _]|[-> H]]]; try discriminate.
  intros [= <-]. split; [reflexivity|]. split; [apply nearest_idem | exact H].
Qed.

Lemma round32_idem q r : round32 q = Finite r -> round32 r = Finite r.
Proof.
  intros H. apply round32_finite in H. destruct H as [_ [E H]].
  destruct (round32_cases r) as [[_ Hc]|[[_ Hc]|[-> _]]];
    rewrite ?E in *; [lra | lra | reflexivity].
Qed.


(** The hinge is 0 when the negative similarity plus the margin is at most
    the positive similarity: rounding is monotone and keeps the margin, a
    float32 number, as it is. *)
Lemma hinge_zero n p m :
  round32 m = Finite m ->
  (n + m <= p)%Q ->
  fmax (fadd (fsub (Finite n) (Finite p)) (Finite m)) (Finite 0) = Finite 0.
Proof.
  intros Hm H. apply round32_finite in Hm. destruct Hm as [_ [Em Hm]].
  assert (Hd : (nearest (n - p) <= - m)%Q).
  { rewrite <- Em at 1. rewrite <- nearest_opp. apply nearest_mono. lra. }
  cbn [fsub].
  destruct (round32_cases (n - p)) as [[-> Hc]|[[-> _]|[-> _]]];
    [lra | reflexivity |].
  cbn [fadd].
  assert (Hs : (nearest (nearest (n - p) + m) <= 0)%Q).
  { apply nearest_sign. lra. }
  pose proof (pow2_pos 128).
  destruct (round32_cases (nearest (n - p) + m)) as [[-> Hc]|[[-> _]|[-> _]]];
    [lra | reflexivity |].
  cbn [fmax]. apply Qle_bool_iff in Hs. now rewrite Hs.
Qed.

Lemma hinge_nonneg n p m :
  fle (Finite 0) (fmax (fadd (fsub (Finite n) (Finite p)) (Finite m)) (Finite 0))
  = true.
Proof.
  cbn [fsub].
  destruct (round32_cases (n - p)) as [[-> _]|[[-> _]|[-> _]]];
    [reflexivity | reflexivity |].
  cbn [fadd].
  destruct (round32_cases (nearest (n - p) + m)) as [[-> _]|[[-> _]|[-> _]]];
    [reflexivity | reflexivity |].
  cbn [fmax]. destruct (Qle_bool _ 0) eqn:E; cbn [fle]; [reflexivity|].
  apply Qle_bool_iff. apply Qlt_le_weak, Qnot_le_lt. intros Hc.
  apply Qle_bool_iff in Hc. congruence.
Qed.


(** ** The losses *)

Lemma zip_with_length {A B C} (f : A -> B -> C) a b :
  length a = length b -> length (zip_with f a b) = length a.
Proof.
  revert b. induction a as [|x a IH]; intros [|y b]; simpl; try congruence.
  intros [= H]. now rewrite IH.
Qed.

Lemma zip_with_nth_error {A B C} (f : A -> B -> C) a b i x y :
  nth_error a i = Some x -> nth_error b i = Some y ->
  nth_error (zip_with f a b) i = Some (f x y).
Proof.
  revert b i. induction a as [|x0 a IH]; intros [|y0 b] [|i]; simpl;
    try discriminate.
  - now intros [= ->] [= ->].
  - apply IH.
Qed.

Lemma elementwise_same_shape f a b :
  length a = length b -> elementwise f a b = Ok (zip_with f a b).
Proof.
  intros H. unfold elementwise. now rewrite H, Nat.eqb_refl.
Qed.

Lemma margin_comparator_loss_nth positive_pair_sim negative_pair_sim margin i p n :
  nth_error positive_pair_sim i = Some p ->
  nth_error negative_pair_sim i = Some n ->
  nth_error
    (tf_maximum (tf_add_scalar (zip_with fsub negative_pair_sim positive_pair_sim)
                   margin) 0%Q) i
  = Some (fmax (fadd (fsub n p) (round32 margin)) (Finite 0)).
Proof.
  intros Hp Hn. unfold tf_maximum, tf_add_scalar.
  rewrite !nth_error_map, (zip_with_nth_error _ _ _ _ _ _ Hn Hp).
  reflexivity.
Qed.

(** C4, as the code has it. On two batches of similarities of one shape and
    with a finite margin ([m] as a float32, 1 when no margin is given), the
    loss at a position of finite similarities [p] and [n] is
    [max(n - p + m, 0)] computed in float32; it is not NaN and not negative,
    and it is 0 whenever [n + m <= p]. *)
Theorem margin_comparator_loss_hinge (positive_pair_sim negative_pair_sim : tensor)
    (margin : option Q) (m : Q) :
  length positive_pair_sim = length negative_pair_sim ->
  round32 (kwarg 1%Q margin) = Finite m ->
  margin_comparator_loss (positive_pair_sim, negative_pair_sim) None
    = margin_comparator_loss (positive_pair_sim, negative_pair_sim) (Some 1%Q) /\
  exists loss,
    margin_comparator_loss (positive_pair_sim, negative_pair_sim) margin = Ok loss /\
    length loss = length positive_pair_sim /\
    forall i p n,
      nth_error positive_pair_sim i = Some (Finite p) ->
      nth_error negative_pair_sim i = Some (Finite n) ->
      exists l,
        nth_error loss i = Some l /\
        l = fmax (fadd (fsub (Finite n) (Finite p)) (Finite m)) (Finite 0) /\
        fle (Finite 0) l = true /\
        ((n + m <= p)%Q -> l = Finite 0).
Proof.
  intros Hshape Hm. split; [reflexivity|].
  unfold margin_comparator_loss, tf_sub.
  rewrite elementwise_same_shape by congruence.
  cbn [bind ret Monad_result]. eexists. split; [reflexivity|]. split.
  - unfold tf_maximum, tf_add_scalar.
    rewrite !length_map, zip_with_length; congruence.
  - intros i p n Hp Hn. eexists.
    split; [apply (margin_comparator_loss_nth _ _ _ _ _ _ Hp Hn)|].
    rewrite Hm. split; [reflexivity|]. split.
    + apply hinge_nonneg.
    + apply hinge_zero. now apply round32_idem in Hm.
Qed.

Lemma margin_comparator_loss_hinge_witness :
  length [Finite (1 # 2); Finite 1] = length [Finite (1 # 4); Finite (- (1))] /\
  round32 (kwarg 1%Q None) = Finite 1 /\
  margin_comparator_loss
    ([Finite (1 # 2); Finite 1], [Finite (1 # 4); Finite (- (1))]) None
    = Ok [Finite (3 # 4); Finite 0] /\
  exists loss,
    margin_comparator_loss
      ([Finite (1 # 2); Finite 1], [Finite (1 # 4); Finite (- (1))]) None
      = Ok loss /\
    length loss = length [Finite (1 # 2); Finite 1] /\
    forall i p n,
      nth_error [Finite (1 # 2); Finite 1] i = Some (Finite p) ->
      nth_error [Finite (1 # 4); Finite (- (1))] i = Some (Finite n) ->
      exists l,
        nth_error loss i = Some l /\
        l = fmax (fadd (fsub (Finite n) (Finite p)) (Finite 1)) (Finite 0) /\
        fle (Finite 0) l = true /\
        ((n + 1 <= p)%Q -> l = Finite 0).
Proof.
  split; [reflexivity|]. split; [reflexivity|]. split; [reflexivity|].
  exact (proj2 (margin_comparator_loss_hinge
                  [Finite (1 # 2); Finite 1] [Finite (1 # 4); Finite (- (1))]
                  None 1 eq_refl eq_refl)).
Defined.

(** C4, as stated, fails: the loss can be 0 without [n + margin <= p]. For
    the float32 similarities [p = 1/2 + 2 ^ -24 = 8388609 / 2 ^ 24] and
    [n = - (1/2 - 3 * 2 ^ -25) = - 16777213 / 2 ^ 25] and the default margin,
    [n - p] is [- (1 - 2 ^ -25)], half way between two float32 numbers, and
    is rounded to -1: the loss is 0 although [n + 1 > p]. *)
Lemma hinge_zero_above_the_margin :
  ~ (forall (p n : Q) (loss : float32),
       round32 p = Finite p ->
       round32 n = Finite n ->
       margin_comparator_loss ([Finite p], [Finite n]) None = Ok [loss] ->
       (loss = Finite 0 <-> (n + 1 <= p)%Q)).
Proof.
  intros claim.
  pose proof (claim (8388609 # 2 ^ 24)%Q (- (16777213 # 2 ^ 25))%Q
                (Finite 0) eq_refl eq_refl eq_refl) as [H _].
  specialize (H eq_refl). revert H. apply Qlt_not_le. reflexivity.
Qed.

Section LossFacts.

Variable reduce_mean : tensor -> float32.




End LossFacts.




(** ** More on the triplet sampler *)

Lemma series_max_some column : column <> [] -> exists m, series_max column = Some m.
Proof.
  destruct column as [|x rest]; [congruence|]. intros _. simpl. eauto.
Qed.

Lemma py_max_some a b x : a = Some x -> exists m, py_max a b = Some m.
Proof.
  intros ->. destruct b; simpl; eauto.
Qed.

Lemma pos_data_incl data row : In row (pos_data data) -> In row data.
Proof.
  unfold pos_data, query_rating_ge. rewrite filter_In. tauto.
Qed.

(** The sizes of the embedding tables exceed every id of the two tables. *)
Lemma notebook_bounds data_train data_test :
  data_train <> [] ->
  exists max_user_id max_item_id,
    notebook_max_user_id data_train data_test = Some max_user_id /\
    notebook_max_item_id data_train data_test = Some max_item_id /\
    In max_item_id (values item_id (data_train ++ data_test)) /\
    forall row, In row (data_train ++ data_test) ->
      user_id row <= max_user_id /\ item_id row <= max_item_id.
Proof.
  intros Hne.
  unfold notebook_max_user_id, notebook_max_item_id.
  destruct (series_max_some (values user_id data_train)) as [xu Eu].
  { unfold values. destruct data_train; [congruence | discriminate]. }
  destruct (series_max_some (values item_id data_train)) as [xi Ei].
  { unfold values. destruct data_train; [congruence | discriminate]. }
  destruct (py_max_some _ (series_max (values user_id data_test)) _ Eu) as [mu Hmu].
  destruct (py_max_some _ (series_max (values item_id data_test)) _ Ei) as [mi Hmi].
  exists mu, mi. split; [assumption|]. split; [assumption|].
  destruct (py_max_spec user_id _ _ _ Hmu) as [_ Hu].
  destruct (py_max_spec item_id _ _ _ Hmi) as [Hin Hi].
  split; [assumption|].
  intros row Hrow. split.
  - apply Hu. unfold values. now apply in_map.
  - apply Hi. unfold values. now apply in_map.
Qed.

Section SamplerMore.

Variable rng_state : Type.
Variable init_by_seed : Z -> rng_state.
Variable draw : rng_state -> Z -> Z -> Z * rng_state.

Notation "'sample'" := (sample_triplets init_by_seed draw).

(** X1. The negative item ids depend on the seed, on [max_item_id] and on
    the number of rows only: two tables with as many rows get the same
    negatives (or the same exception), whatever their users and items. There
    is no look at the positive item of a row when its negative is drawn. *)
Theorem negatives_ignore_the_rows pos pos' m s (h h' : heap rng_state) :
  length pos = length pos' ->
  map_result (fun out => nth 2 out []) (returned (sample pos m s) h) =
  map_result (fun out => nth 2 out []) (returned (sample pos' m s) h').
Proof.
  intros Hlen. rewrite !sample_triplets_returned.
  unfold values. rewrite !length_map, Hlen.
  destruct (seed_ok (kwarg 0 s) && bound_ok m); reflexivity.
Qed.

(** X2. A call that returns leaves every generator object of the store as
    it was and adds one object, its own: no other generator is seeded or
    advanced. *)
Theorem sample_triplets_adds_one_generator pos m s (h h' : heap rng_state) out :
  sample pos m s h = Ok (out, h') ->
  (exists st, h' = h ++ [st]) /\
  firstn (length h) h' = h /\
  length h' = S (length h).
Proof.
  rewrite sample_triplets_unfold.
  destruct (seed_ok (kwarg 0 s)); [|discriminate].
  destruct (bound_ok m); [|discriminate].
  cbv zeta. intros [= _ <-]. split; [eauto|]. split.
  - rewrite firstn_app, firstn_all, Nat.sub_diag. simpl. apply app_nil_r.
  - rewrite length_app. simpl. lia.
Qed.

(** X3. With at least one training rating and ids from 1 and below the
    largest int64, the sampling of every epoch of the training loop,
    [sample_triplets(pos_data_train, max_item_id, random_seed=i)], returns
    three sequences as long as the positive training table, and every id in
    them is an index of its embedding table: the anchors are in
    [[1, n_users)], the positives and the negatives in [[1, n_items)]. *)
Theorem epoch_triplets_index_the_embeddings data_train data_test i
    (h : heap rng_state) :
  (forall st low high, low < high -> low <= fst (draw st low high) < high) ->
  data_train <> [] ->
  ids_from_one data_train ->
  ids_from_one data_test ->
  0 <= i < n_epochs ->
  exists users_size items_size max_item_id user_ids pos_item_ids neg_item_ids,
    n_users data_train data_test = Some users_size /\
    n_items data_train data_test = Some items_size /\
    notebook_max_item_id data_train data_test = Some max_item_id /\
    returned (sample (pos_data data_train) max_item_id (Some i)) h
      = Ok [user_ids; pos_item_ids; neg_item_ids] /\
    length user_ids = length (pos_data data_train) /\
    length pos_item_ids = length (pos_data data_train) /\
    length neg_item_ids = length (pos_data data_train) /\
    Forall (fun u => 1 <= u < users_size) user_ids /\
    Forall (fun p => 1 <= p < items_size) pos_item_ids /\
    Forall (fun n => 1 <= n < items_size) neg_item_ids.
Proof.
  intros Hdraw Hne Htrain Htest Hi.
  destruct (notebook_bounds data_train data_test Hne)
    as [mu [mi [Hmu [Hmi [Hin Hmax]]]]].
  assert (Hall : ids_from_one (data_train ++ data_test)).
  { intros row Hrow. apply in_app_or in Hrow. destruct Hrow; auto. }
  assert (Hmi_range : 1 <= mi < int64_max).
  { unfold values in Hin. apply in_map_iff in Hin.
    destruct Hin as [row [<- Hrow]]. apply Hall. assumption. }
  assert (Hmu_range : mu < int64_max).
  { unfold notebook_max_user_id in Hmu. apply py_max_spec in Hmu.
    destruct Hmu as [Hmu _]. unfold values in Hmu. apply in_map_iff in Hmu.
    destruct Hmu as [row [<- Hrow]]. apply Hall. assumption. }
  exists (mu + 1), (mi + 1), mi.
  unfold n_users, n_items. rewrite Hmu, Hmi, !reach_plus_one.
  rewrite (reach_below mu), (reach_below mi) by lia.
  rewrite sample_triplets_returned.
  assert (Hseed : seed_ok (kwarg 0 (Some i)) = true).
  { apply (proj2 (seed_ok_iff rng_state init_by_seed draw _)). simpl kwarg. unfold n_epochs in Hi.
    change (2 ^ 32) with 4294967296. lia. }
  assert (Hbound : bound_ok mi = true).
  { apply bound_ok_iff. unfold highbnd, int64_max in *. lia. }
  rewrite Hseed, Hbound. simpl andb. cbv iota.
  do 3 eexists. split; [reflexivity|]. split; [reflexivity|].
  split; [reflexivity|]. split; [reflexivity|].
  unfold values. rewrite draws_length, !length_map.
  repeat split.
  - apply Forall_forall. intros u Hu. apply in_map_iff in Hu.
    destruct Hu as [row [<- Hrow]]. apply pos_data_incl in Hrow.
    destruct (Htrain row Hrow) as [[Hlo _] _].
    destruct (Hmax row (in_or_app _ _ _ (or_introl Hrow))) as [Hle _]. lia.
  - apply Forall_forall. intros p Hp. apply in_map_iff in Hp.
    destruct Hp as [row [<- Hrow]]. apply pos_data_incl in Hrow.
    destruct (Htrain row Hrow) as [_ [Hlo _]].
    destruct (Hmax row (in_or_app _ _ _ (or_introl Hrow))) as [_ Hle]. lia.
  - eapply Forall_impl; [|apply draws_range; intros st'; apply Hdraw; lia].
    simpl. intros n. lia.
Qed.

End SamplerMore.

Lemma ratings_ids_from_one : ids_from_one ratings_train /\ ids_from_one ratings_test.
Proof.
  split; intros row Hrow; simpl in Hrow;
    repeat (destruct Hrow as [<-|Hrow]; [unfold int64_max; simpl; lia|]);
    contradiction.
Qed.

Lemma negatives_ignore_the_rows_witness :
  length three_rows = length (rev three_rows) /\
  map_result (fun out => nth 2 out [])
    (returned (sample_triplets counter_init counter_draw three_rows 20 (Some 3)) [])
  = map_result (fun out => nth 2 out [])
      (returned (sample_triplets counter_init counter_draw (rev three_rows) 20
                   (Some 3)) [7]).
Proof.
  split; [reflexivity|].
  exact (negatives_ignore_the_rows Z counter_init counter_draw
           three_rows (rev three_rows) 20 (Some 3) [] [7] eq_refl).
Defined.

Lemma sample_triplets_adds_one_generator_witness :
  sample_triplets counter_init counter_draw three_rows 20 (Some 0) [5; 6]
    = Ok ([[1; 1; 2]; [10; 12; 5]; [4; 17; 2]], [5; 6; 406]) /\
  (exists st, [5; 6; 406] = [5; 6] ++ [st]) /\
  firstn (length [5; 6]) [5; 6; 406] = [5; 6] /\
  length [5; 6; 406] = S (length [5; 6]).
Proof.
  split; [reflexivity|].
  exact (sample_triplets_adds_one_generator Z counter_init counter_draw
           three_rows 20 (Some 0) [5; 6] [5; 6; 406] _ eq_refl).
Defined.

Lemma epoch_triplets_index_the_embeddings_witness :
  ratings_train <> [] /\ 0 <= 14 < n_epochs /\
  exists users_size items_size max_item_id user_ids pos_item_ids neg_item_ids,
    n_users ratings_train ratings_test = Some users_size /\
    n_items ratings_train ratings_test = Some items_size /\
    notebook_max_item_id ratings_train ratings_test = Some max_item_id /\
    returned (sample_triplets counter_init counter_draw (pos_data ratings_train)
                max_item_id (Some 14)) []
      = Ok [user_ids; pos_item_ids; neg_item_ids] /\
    length user_ids = length (pos_data ratings_train) /\
    length pos_item_ids = length (pos_data ratings_train) /\
    length neg_item_ids = length (pos_data ratings_train) /\
    Forall (fun u => 1 <= u < users_size) user_ids /\
    Forall (fun p => 1 <= p < items_size) pos_item_ids /\
    Forall (fun n => 1 <= n < items_size) neg_item_ids.
Proof.
  assert (Hne : ratings_train <> []) by discriminate.
  assert (Hi : 0 <= 14 < n_epochs) by (unfold n_epochs; lia).
  split; [exact Hne|]. split; [exact Hi|].
  exact (epoch_triplets_index_the_embeddings Z counter_init counter_draw
           ratings_train ratings_test 14 [] counter_draw_range Hne
           (proj1 ratings_ids_from_one) (proj2 ratings_ids_from_one) Hi).
Defined.

(** ** More on the ranking evaluator *)

Lemma traverse_ext_in {A B} (f g : A -> result B) l :
  (forall x, In x l -> f x = g x) -> traverse f l = traverse g l.
Proof.
  induction l as [|x l IH]; intros H; [reflexivity|].
  cbn [traverse]. rewrite (H x (or_introl eq_refl)).
  rewrite IH; [reflexivity|]. intros y Hy. apply H. now right.
Qed.

Lemma train_items_In df u i :
  In i (train_items df u) <-> In (u, i) (pairs df).
Proof.
  unfold train_items, values, where_eq, pairs. rewrite !in_map_iff. split.
  - intros [row [<- Hrow]]. apply filter_In in Hrow.
    destruct Hrow as [Hrow E]. apply Z.eqb_eq in E. subst u.
    exists row. split; [reflexivity | assumption].
  - intros [row [[= <- <-] Hrow]]. exists row. split; [reflexivity|].
    apply filter_In. split; [assumption | apply Z.eqb_refl].
Qed.

Lemma test_items_In df u i :
  In i (test_items df u) <-> In (u, i) (pairs df).
Proof. apply train_items_In. Qed.

Lemma pairs_In df u i :
  In (u, i) (pairs df) <-> exists row, In row df /\ user_id row = u /\ item_id row = i.
Proof.
  unfold pairs. rewrite in_map_iff. split.
  - intros [row [[= <- <-] Hrow]]. eauto.
  - intros [row [Hrow [<- <-]]]. eauto.
Qed.

Lemma eligible_users_In data_train data_test max_user_id max_item_id u :
  local_max_user_id data_train data_test = Some max_user_id ->
  local_max_item_id data_train data_test = Some max_item_id ->
  (In u (eligible_users data_train data_test) <->
   1 <= u <= max_user_id /\
   exists i, In i (candidate_items data_train max_item_id u) /\
             In i (test_items data_test u)).
Proof.
  intros Hu Hi. unfold eligible_users, non_skipped_users. rewrite Hu, Hi.
  rewrite filter_In, interval_In, negb_true_iff.
  unfold skipped. rewrite negb_false_iff, existsb_exists.
  unfold label. setoid_rewrite isin_In. intuition lia.
Qed.

Lemma candidate_items_In data_train max_item_id u i :
  In i (candidate_items data_train max_item_id u) <->
  1 <= i <= max_item_id /\ ~ In i (train_items data_train u).
Proof.
  unfold candidate_items. rewrite filter_In, interval_In, negb_true_iff.
  rewrite <- not_true_iff_false, isin_In. intuition lia.
Qed.

Section EvaluatorMore.

Variable roc_auc_score : list bool -> list Q -> result Q.

Lemma average_roc_auc_model_ext (match_model match_model' : model)
    data_train data_test :
  (forall max_item_id u i,
     local_max_item_id data_train data_test = Some max_item_id ->
     In u (eligible_users data_train data_test) ->
     In i (candidate_items data_train max_item_id u) ->
     match_model u i = match_model' u i) ->
  average_roc_auc roc_auc_score match_model data_train data_test =
  average_roc_auc roc_auc_score match_model' data_train data_test.
Proof.
  intros H. rewrite !average_roc_auc_run.
  destruct (local_max_user_id data_train data_test) as [mu|] eqn:Hmu;
    [|reflexivity].
  destruct (local_max_item_id data_train data_test) as [mi|] eqn:Hmi;
    [|reflexivity].
  rewrite (traverse_ext_in
             (user_auc roc_auc_score match_model data_train data_test (reach mi))
             (user_auc roc_auc_score match_model' data_train data_test (reach mi)));
    [reflexivity|].
  intros u Hu. unfold user_auc. cbv zeta. f_equal.
  apply map_ext_in. intros i Hcand. apply (H mi); [reflexivity | |].
  - unfold eligible_users. rewrite Hmu, Hmi.
    now apply non_skipped_users_reach_In.
  - now apply candidate_items_reach.
Qed.

(** X4. [average_roc_auc] asks the match model for the scores of the users
    that are not skipped, each with its own candidates, and for nothing else:
    two models that agree on every pair (u, i) where u, from 1 to the largest
    user id, has a test item that is no training item of u, and i, from 1 to
    the largest item id, is no training item of u, get the same result. In
    particular no user is scored with one of its training items. *)
Theorem evaluator_scores_candidates_only (match_model match_model' : model)
    data_train data_test max_user_id max_item_id :
  local_max_user_id data_train data_test = Some max_user_id ->
  local_max_item_id data_train data_test = Some max_item_id ->
  (forall u i,
     1 <= u <= max_user_id ->
     1 <= i <= max_item_id ->
     ~ In (u, i) (pairs data_train) ->
     (exists j, In (u, j) (pairs data_test) /\ ~ In (u, j) (pairs data_train)) ->
     match_model u i = match_model' u i) ->
  average_roc_auc roc_auc_score match_model data_train data_test =
  average_roc_auc roc_auc_score match_model' data_train data_test.
Proof.
  intros Hu Hi H. apply average_roc_auc_model_ext.
  intros mi u i Hmi Helig Hcand. rewrite Hi in Hmi. injection Hmi as <-.
  apply (eligible_users_In _ _ _ _ u Hu Hi) in Helig.
  destruct Helig as [Hrange [j [Hj Htest]]].
  apply candidate_items_In in Hcand. destruct Hcand as [Hirange Hnot].
  apply candidate_items_In in Hj. destruct Hj as [_ Hjnot].
  apply H; try assumption.
  - now rewrite <- train_items_In.
  - exists j. rewrite <- test_items_In, <- train_items_In. now split.
Qed.

(** X5. In the notebook, where the evaluator gets the positive tables, and
    with every id of the ratings below the largest int64, it asks the match
    model only for users in [[1, n_users)] and items in [[1, n_items)], the
    index ranges of the two embedding tables: two models that agree there
    get the same result. *)
Theorem evaluator_indexes_the_embeddings (match_model match_model' : model)
    data_train data_test users_size items_size :
  ids_below_int64_max data_train data_test ->
  n_users data_train data_test = Some users_size ->
  n_items data_train data_test = Some items_size ->
  (forall u i, 1 <= u < users_size -> 1 <= i < items_size ->
     match_model u i = match_model' u i) ->
  average_roc_auc roc_auc_score match_model
    (pos_data data_train) (pos_data data_test) =
  average_roc_auc roc_auc_score match_model'
    (pos_data data_train) (pos_data data_test).
Proof.
  intros Hids. destruct (ids_below_reach _ _ Hids) as [Hru Hri].
  unfold local_max_user_id in Hru. unfold local_max_item_id in Hri.
  unfold n_users, n_items, notebook_max_user_id, notebook_max_item_id.
  intros Hnu Hni H.
  destruct (py_max (series_max (values user_id data_train)) _) as [mu|] eqn:Hmu;
    [|discriminate].
  destruct (py_max (series_max (values item_id data_train)) _) as [mi|] eqn:Hmi;
    [|discriminate].
  rewrite reach_plus_one in Hnu, Hni.
  rewrite (Hru mu eq_refl) in Hnu. rewrite (Hri mi eq_refl) in Hni.
  injection Hnu as <-. injection Hni as <-.
  apply py_max_spec in Hmu. destruct Hmu as [_ Hmu].
  apply py_max_spec in Hmi. destruct Hmi as [_ Hmi].
  assert (Hsub : forall col x,
            In x (values col (pos_data data_train ++ pos_data data_test)) ->
            In x (values col (data_train ++ data_test))).
  { intros col x. unfold values. rewrite !in_map_iff.
    intros [row [<- Hrow]]. exists row. split; [reflexivity|].
    apply in_app_or in Hrow. apply in_or_app.
    destruct Hrow as [Hrow|Hrow]; apply pos_data_incl in Hrow; auto. }
  apply average_roc_auc_model_ext.
  intros lmi u i Hlmi Helig Hcand.
  destruct (local_max_user_id (pos_data data_train) (pos_data data_test))
    as [lmu|] eqn:Hlmu.
  - apply (eligible_users_In _ _ _ _ u Hlmu Hlmi) in Helig.
    destruct Helig as [Hurange _].
    apply candidate_items_In in Hcand. destruct Hcand as [Hirange _].
    apply py_max_spec in Hlmu. destruct Hlmu as [Hlmu _].
    apply py_max_spec in Hlmi. destruct Hlmi as [Hlmi _].
    specialize (Hmu lmu (Hsub _ _ Hlmu)).
    specialize (Hmi lmi (Hsub _ _ Hlmi)).
    apply H; lia.
  - unfold eligible_users in Helig. rewrite Hlmu in Helig. contradiction.
Qed.

End EvaluatorMore.

Lemma series_max_ext l l' :
  (forall x, In x l <-> In x l') -> series_max l = series_max l'.
Proof.
  intros H.
  destruct (series_max l) as [m|] eqn:E; destruct (series_max l') as [m'|] eqn:E'.
  - apply series_max_spec in E. apply series_max_spec in E'.
    destruct E as [Hin Hmax]. destruct E' as [Hin' Hmax'].
    f_equal. apply Z.le_antisymm.
    + apply Hmax'. now apply H.
    + apply Hmax. now apply H.
  - apply series_max_none in E'. subst l'.
    apply series_max_spec in E. destruct E as [Hin _]. now apply H in Hin.
  - apply series_max_none in E. subst l.
    apply series_max_spec in E'. destruct E' as [Hin _]. now apply H in Hin.
  - reflexivity.
Qed.

Lemma values_user_id_In df u :
  In u (values user_id df) <-> exists i, In (u, i) (pairs df).
Proof.
  unfold values. rewrite in_map_iff. setoid_rewrite pairs_In. split.
  - intros [row [<- Hrow]]. eauto.
  - intros [i [row [Hrow [<- _]]]]. eauto.
Qed.

Lemma values_item_id_In df i :
  In i (values item_id df) <-> exists u, In (u, i) (pairs df).
Proof.
  unfold values. rewrite in_map_iff. setoid_rewrite pairs_In. split.
  - intros [row [<- Hrow]]. eauto.
  - intros [u [row [Hrow [_ <-]]]]. eauto.
Qed.

Lemma isin_ext x l l' : (In x l <-> In x l') -> isin x l = isin x l'.
Proof.
  intros H. apply eq_iff_eq_true. now rewrite !isin_In.
Qed.

Lemma existsb_ext_in {A} (f g : A -> bool) l :
  (forall x, In x l -> f x = g x) -> existsb f l = existsb g l.
Proof.
  induction l as [|x l IH]; intros H; [reflexivity|].
  simpl. rewrite (H x (or_introl eq_refl)), IH; [reflexivity|].
  intros y Hy. apply H. now right.
Qed.

Section EvaluatorTables.

Variable roc_auc_score : list bool -> list Q -> result Q.
Variable match_model : model.

(** X6. [average_roc_auc] reads its two tables as sets of (user, item)
    pairs: two training tables with the same pairs and two test tables with
    the same pairs give the same result, whatever the ratings, the time
    stamps, the order of the rows and their repetitions. The evaluator does
    not look at the rating: every row it is given counts as a positive. *)
Theorem evaluator_reads_pairs_only data_train data_train' data_test data_test' :
  (forall p, In p (pairs data_train) <-> In p (pairs data_train')) ->
  (forall p, In p (pairs data_test) <-> In p (pairs data_test')) ->
  average_roc_auc roc_auc_score match_model data_train data_test =
  average_roc_auc roc_auc_score match_model data_train' data_test'.
Proof.
  intros Htrain Htest.
  assert (Hcand : forall m u,
            candidate_items data_train m u = candidate_items data_train' m u).
  { intros m u. unfold candidate_items. apply filter_ext. intros i.
    f_equal. apply isin_ext. now rewrite !train_items_In. }
  assert (Hlabel : forall u i, label data_test u i = label data_test' u i).
  { intros u i. unfold label. apply isin_ext. now rewrite !test_items_In. }
  assert (Hmu : local_max_user_id data_train data_test
                = local_max_user_id data_train' data_test').
  { unfold local_max_user_id. f_equal; apply series_max_ext; intros u;
      rewrite !values_user_id_In;
      [setoid_rewrite Htrain | setoid_rewrite Htest]; reflexivity. }
  assert (Hmi : local_max_item_id data_train data_test
                = local_max_item_id data_train' data_test').
  { unfold local_max_item_id. f_equal; apply series_max_ext; intros i;
      rewrite !values_item_id_In;
      [setoid_rewrite Htrain | setoid_rewrite Htest]; reflexivity. }
  assert (Helig : forall mu mi,
            non_skipped_users data_train data_test mu mi
            = non_skipped_users data_train' data_test' mu mi).
  { intros mu mi.
    unfold non_skipped_users. apply filter_ext. intros u. f_equal.
    unfold skipped. rewrite Hcand. f_equal.
    apply existsb_ext_in. intros i _. apply Hlabel. }
  rewrite !average_roc_auc_run, Hmu, Hmi.
  destruct (local_max_user_id data_train' data_test'); [|reflexivity].
  destruct (local_max_item_id data_train' data_test') as [mi|]; [|reflexivity].
  rewrite Helig.
  rewrite (traverse_ext_in
             (user_auc roc_auc_score match_model data_train data_test (reach mi))
             (user_auc roc_auc_score match_model data_train' data_test' (reach mi)));
    [reflexivity|].
  intros u _. unfold user_auc. cbv zeta. rewrite Hcand. f_equal.
  apply map_ext. intros i. apply Hlabel.
Qed.

End EvaluatorTables.

Lemma In_combine_map {A B} (f : A -> B) l x :
  In x l -> In (x, f x) (combine l (map f l)).
Proof.
  induction l as [|y l IH]; simpl; [tauto|].
  intros [->|H]; [now left | right; auto].
Qed.

(** X7. With every id of the two tables below the largest int64, no held-out
    positive is lost: a test item of user [u], with an id from 1, that is no
    training item of [u], is among the candidates of [u] and its label is 1,
    so that [u] (from 1) is not skipped. The bound [max_item_id] of the
    evaluator never cuts a test item off. *)
Theorem held_out_positives_are_ranked data_train data_test max_item_id u i :
  ids_below_int64_max data_train data_test ->
  local_max_item_id data_train data_test = Some max_item_id ->
  In (u, i) (pairs data_test) ->
  ~ In (u, i) (pairs data_train) ->
  1 <= i ->
  exists candidates,
    items_to_rank data_train (local_max_item_id data_train data_test) u
      = Ok candidates /\
    In (i, true) (combine candidates (expected data_test candidates u)) /\
    (1 <= u -> In u (eligible_users data_train data_test)).
Proof.
  intros Hids Hmi Htest Htrain Hi.
  rewrite Hmi, items_to_rank_candidates.
  rewrite (proj2 (ids_below_reach _ _ Hids) _ Hmi).
  eexists. split; [reflexivity|].
  assert (Hle : i <= max_item_id).
  { apply py_max_spec in Hmi. destruct Hmi as [_ Hmax]. apply Hmax.
    unfold values. rewrite map_app. apply in_or_app. right.
    apply pairs_In in Htest. destruct Htest as [row [Hrow [_ <-]]].
    now apply in_map. }
  assert (Hcand : In i (candidate_items data_train max_item_id u)).
  { apply candidate_items_In. rewrite train_items_In. split; [lia | assumption]. }
  assert (Hlabel : label data_test u i = true).
  { unfold label. apply isin_In. now apply test_items_In. }
  split.
  - rewrite expected_labels. rewrite <- Hlabel. now apply In_combine_map.
  - intros Hu.
    assert (Hmu : exists mu, local_max_user_id data_train data_test = Some mu).
    { pose proof (local_maxima data_train data_test) as Hloc.
      destruct data_train as [|row0 rest].
      - destruct Hloc as [_ E]. rewrite E in Hmi. discriminate.
      - destruct Hloc as [mu [_ [Hmu _]]]. eauto. }
    destruct Hmu as [mu Hmu].
    apply (eligible_users_In _ _ _ _ u Hmu Hmi). split.
    + split; [assumption|].
      apply py_max_spec in Hmu. destruct Hmu as [_ Hmax]. apply Hmax.
      unfold values. rewrite map_app. apply in_or_app. right.
      apply pairs_In in Htest. destruct Htest as [row [Hrow [<- _]]].
      now apply in_map.
    + exists i. split; [assumption|]. now apply test_items_In.
Qed.

Lemma reduce_sum_bounds (xs : list Q) :
  Forall (fun x => 0 <= x <= 1)%Q xs ->
  (0 <= reduce_sum xs <= inject_Z (Z.of_nat (length xs)))%Q.
Proof.
  induction 1 as [|x xs Hx _ IH]; simpl reduce_sum.
  - simpl. split; apply Qle_refl.
  - cbn [length]. rewrite Nat2Z.inj_succ, <- Z.add_1_r, inject_Z_plus.
    change (inject_Z 1) with 1%Q. lra.
Qed.

Lemma mean_in_unit_interval (total : Q) (n : nat) :
  n <> O ->
  (0 <= total <= inject_Z (Z.of_nat n))%Q ->
  (0 <= total / inject_Z (Z.of_nat n) <= 1)%Q.
Proof.
  intros Hn Htotal.
  assert (Hpos : (0 < inject_Z (Z.of_nat n))%Q).
  { change 0%Q with (inject_Z 0). rewrite <- Zlt_Qlt. lia. }
  split.
  - apply Qle_shift_div_l; [assumption|]. lra.
  - apply Qle_shift_div_r; [assumption|]. lra.
Qed.

Lemma traverse_Forall {A B} (f : A -> result B) (P : B -> Prop) l ys :
  (forall x y, f x = Ok y -> P y) ->
  traverse f l = Ok ys -> Forall P ys.
Proof.
  intros Hf. revert ys. induction l as [|x l IH]; intros ys; cbn [traverse].
  - intros [= <-]. constructor.
  - destruct (f x) as [y|e] eqn:Ey; cbn [bind Monad_result]; [|discriminate].
    destruct (traverse f l) as [ys'|e]; cbn [bind Monad_result ret];
      [|discriminate].
    intros [= <-]. constructor; [now apply (Hf x) | now apply IH].
Qed.

Section EvaluatorRange.

Variable roc_auc_score : list bool -> list Q -> result Q.
Variable match_model : model.

(** X8. With a [roc_auc_score] whose values lie in [[0, 1]], every value
    [average_roc_auc] returns lies in [[0, 1]]. *)
Theorem average_roc_auc_in_unit_interval data_train data_test average :
  (forall y_true y_score auc,
     roc_auc_score y_true y_score = Ok auc -> (0 <= auc <= 1)%Q) ->
  average_roc_auc roc_auc_score match_model data_train data_test = Ok average ->
  (0 <= average <= 1)%Q.
Proof.
  intros Hroc. rewrite average_roc_auc_run.
  destruct (local_max_user_id data_train data_test); [|discriminate].
  destruct (local_max_item_id data_train data_test) as [mi|]; [|discriminate].
  destruct (traverse _ _) as [aucs|e] eqn:Eaucs; cbn [bind Monad_result];
    [|discriminate].
  assert (Hall : Forall (fun x => 0 <= x <= 1)%Q aucs).
  { eapply traverse_Forall; [|exact Eaucs].
    intros u auc. unfold user_auc. apply Hroc. }
  unfold py_truediv.
  destruct (Z.eqb_spec (Z.of_nat (length aucs)) 0) as [|Hlen]; [discriminate|].
  intros [= <-]. rewrite py_sum_reduce_sum.
  apply mean_in_unit_interval; [lia|]. now apply reduce_sum_bounds.
Qed.

End EvaluatorRange.

Lemma pair_credit_unit sp sn : (0 <= pair_credit sp sn <= 1)%Q.
Proof.
  unfold pair_credit. destruct (Qlt_le_dec sn sp); [lra|].
  destruct (Qeq_bool sp sn); lra.
Qed.

Lemma flat_map_map_length {A B C} (g : A -> B -> C) (l : list A) (l' : list B) :
  length (flat_map (fun a => map (g a) l') l) = (length l * length l')%nat.
Proof.
  induction l as [|a l IH]; [reflexivity|].
  cbn [flat_map]. rewrite length_app, length_map, IH. reflexivity.
Qed.

Lemma rank_auc_unit y_true y_score auc :
  rank_auc y_true y_score = Ok auc -> (0 <= auc <= 1)%Q.
Proof.
  unfold rank_auc.
  set (pos := scores_of true y_true y_score).
  set (neg := scores_of false y_true y_score).
  assert (H : forall credits : list Q,
            credits = flat_map (fun sp => map (pair_credit sp) neg) pos ->
            pos <> [] -> neg <> [] ->
            (0 <= reduce_sum credits
                  / inject_Z (Z.of_nat (length pos * length neg)) <= 1)%Q).
  { intros credits -> Hpos Hneg.
    rewrite <- (flat_map_map_length pair_credit pos neg).
    apply mean_in_unit_interval.
    - rewrite flat_map_map_length.
      destruct pos, neg; try congruence. simpl. lia.
    - apply reduce_sum_bounds. apply Forall_flat_map.
      apply Forall_forall. intros sp _. apply Forall_forall.
      intros c Hc. apply in_map_iff in Hc. destruct Hc as [sn [<- _]].
      apply pair_credit_unit. }
  destruct pos as [|sp pos'] eqn:Epos; [discriminate|].
  destruct neg as [|sn neg'] eqn:Eneg; [discriminate|].
  intros [= <-].
  exact (H (flat_map (fun sp0 => map (pair_credit sp0) (sn :: neg')) (sp :: pos'))
           eq_refl ltac:(discriminate) ltac:(discriminate)).
Qed.

Lemma evaluator_scores_candidates_only_witness :
  local_max_user_id scenario_train scenario_test = Some 2 /\
  local_max_item_id scenario_train scenario_test = Some 20 /\
  average_roc_auc rank_auc score_by_item scenario_train scenario_test =
  average_roc_auc rank_auc score_user_one scenario_train scenario_test.
Proof.
  split; [reflexivity|]. split; [reflexivity|].
  apply (evaluator_scores_candidates_only rank_auc score_by_item score_user_one
           scenario_train scenario_test 2 20 eq_refl eq_refl).
  intros u i _ _ Hnot [j [Hj _]]. simpl in Hj, Hnot.
  destruct Hj as [[= <- _]|[]].
  unfold score_by_item, score_user_one.
  destruct (Z.eqb_spec i 10) as [->|_]; [|reflexivity].
  exfalso. apply Hnot. now left.
Defined.

Lemma evaluator_indexes_the_embeddings_witness :
  ids_below_int64_max scenario_train scenario_test /\
  n_users scenario_train scenario_test = Some 3 /\
  n_items scenario_train scenario_test = Some 21 /\
  average_roc_auc rank_auc score_by_item
    (pos_data scenario_train) (pos_data scenario_test) =
  average_roc_auc rank_auc score_in_range
    (pos_data scenario_train) (pos_data scenario_test).
Proof.
  split; [exact scenario_ids_below|].
  split; [reflexivity|]. split; [reflexivity|].
  apply (evaluator_indexes_the_embeddings rank_auc score_by_item score_in_range
           scenario_train scenario_test 3 21 scenario_ids_below eq_refl eq_refl).
  intros u i Hu Hi. unfold score_by_item, score_in_range.
  destruct (Z.leb_spec 1 u); [|lia]. destruct (Z.ltb_spec u 3); [|lia].
  destruct (Z.leb_spec 1 i); [|lia]. destruct (Z.ltb_spec i 21); [|lia].
  reflexivity.
Defined.

Lemma evaluator_reads_pairs_only_witness :
  average_roc_auc rank_auc score_by_item scenario_train scenario_test =
  average_roc_auc rank_auc score_by_item
    scenario_train_shuffled scenario_test_rerated.
Proof.
  apply evaluator_reads_pairs_only; intros p; simpl; tauto.
Defined.

Lemma held_out_positives_are_ranked_witness :
  ids_below_int64_max scenario_train scenario_test /\
  local_max_item_id scenario_train scenario_test = Some 20 /\
  In (1, 20) (pairs scenario_test) /\
  ~ In (1, 20) (pairs scenario_train) /\
  exists candidates,
    items_to_rank scenario_train
      (local_max_item_id scenario_train scenario_test) 1 = Ok candidates /\
    In (20, true) (combine candidates (expected scenario_test candidates 1)) /\
    (1 <= 1 -> In 1 (eligible_users scenario_train scenario_test)).
Proof.
  assert (Hin : In (1, 20) (pairs scenario_test)) by (simpl; auto).
  assert (Hnot : ~ In (1, 20) (pairs scenario_train)).
  { simpl. intros [E|[E|[]]]; discriminate. }
  split; [exact scenario_ids_below|].
  split; [reflexivity|]. split; [exact Hin|]. split; [exact Hnot|].
  exact (held_out_positives_are_ranked scenario_train scenario_test 20 1 20
           scenario_ids_below eq_refl Hin Hnot ltac:(lia)).
Defined.

Lemma average_roc_auc_in_unit_interval_witness :
  average_roc_auc rank_auc score_by_item scenario_train scenario_test
    = Ok (18 # 18)%Q /\
  (0 <= 18 # 18 <= 1)%Q.
Proof.
  split; [reflexivity|].
  exact (average_roc_auc_in_unit_interval rank_auc score_by_item
           scenario_train scenario_test (18 # 18)%Q rank_auc_unit eq_refl).
Defined.

(** ** The sizes of the embedding tables *)



(** ** The training objective *)




Section Objective.

Variable reduce_mean : tensor -> float32.


End Objective.



(** ** More on the release year *)

Lemma digit_range c d : digit c = Some d -> 0 <= d <= 9.
Proof.
  unfold digit. generalize (nat_of_ascii c). intros n.
  destruct (Nat.leb_spec 48 n); cbn [andb]; [|discriminate].
  destruct (Nat.leb_spec n 57); [|discriminate].
  intros [= <-]. lia.
Qed.

Lemma digit_not_space c d : digit c = Some d -> isspace c = false.
Proof.
  unfold digit, isspace. generalize (nat_of_ascii c). intros n.
  destruct (Nat.leb_spec 48 n); cbn [andb]; [|discriminate].
  destruct (Nat.leb_spec n 57); [|discriminate].
  intros _.
  destruct (Nat.leb_spec 9 n); [|lia].
  destruct (Nat.leb_spec n 13); [lia|].
  destruct (Nat.eqb_spec n 32); [lia|].
  destruct (Nat.eqb_spec n 133); [lia|].
  destruct (Nat.eqb_spec n 160); [lia|].
  reflexivity.
Qed.

Lemma all_digits_cons c rest :
  all_digits (String c rest) = true ->
  (exists d, digit c = Some d) /\ all_digits rest = true.
Proof.
  unfold all_digits. simpl. rewrite andb_true_iff. intros [Hc Hrest].
  split; [|assumption]. destruct (digit c) as [d|]; [eauto | discriminate].
Qed.

Lemma rstrip_all_digits s : all_digits s = true -> rstrip s = s.
Proof.
  induction s as [|c rest IH]; [reflexivity|].
  intros H. apply all_digits_cons in H. destruct H as [[d Hd] Hrest].
  simpl. rewrite (IH Hrest).
  destruct rest; [|reflexivity].
  now rewrite (digit_not_space c d Hd).
Qed.

Lemma more_digits_all_digits s acc :
  all_digits s = true ->
  more_digits acc s =
  Some (fold_left (fun a c => a * 10 + kwarg 0 (digit c))
          (list_ascii_of_string s) acc).
Proof.
  revert acc. induction s as [|c rest IH]; intros acc H; [reflexivity|].
  apply all_digits_cons in H. destruct H as [[d Hd] Hrest].
  simpl. rewrite Hd. simpl. now apply IH.
Qed.

Lemma unsigned_literal_all_digits s :
  s <> EmptyString -> all_digits s = true ->
  unsigned_literal s = Some (decimal s).
Proof.
  destruct s as [|c rest]; [congruence|]. intros _ H.
  pose proof (all_digits_cons c rest H) as [[d Hd] Hrest].
  unfold unsigned_literal, decimal. rewrite Hd.
  rewrite (more_digits_all_digits rest d Hrest). simpl. now rewrite Hd.
Qed.

Lemma list_ascii_length s : length (list_ascii_of_string s) = String.length s.
Proof.
  induction s as [|c s IH]; simpl; [reflexivity | now rewrite IH].
Qed.

Lemma count_digits_all_digits s :
  all_digits s = true -> count_digits s = String.length s.
Proof.
  unfold all_digits, count_digits. rewrite <- list_ascii_length.
  induction (list_ascii_of_string s) as [|c l IH]; [reflexivity|].
  simpl. intros H. apply andb_true_iff in H. destruct H as [Hc Hl].
  rewrite Hc. simpl. now rewrite IH.
Qed.

Lemma py_int_all_digits s :
  s <> EmptyString -> all_digits s = true ->
  (String.length s <= int_max_str_digits)%nat ->
  py_int s = Ok (decimal s).
Proof.
  intros Hne H Hlimit.
  assert (Hcount : (count_digits s <=? int_max_str_digits)%nat = true).
  { apply Nat.leb_le. now rewrite count_digits_all_digits. }
  pose proof (unsigned_literal_all_digits s Hne H) as Hlit.
  destruct s as [|c rest]; [congruence|].
  pose proof (all_digits_cons c rest H) as [[d Hd] _].
  unfold py_int.
  assert (Hstrip : rstrip (lstrip (String c rest)) = String c rest).
  { simpl lstrip. rewrite (digit_not_space c d Hd). now apply rstrip_all_digits. }
  rewrite Hstrip.
  assert (Hsign :
    match String c rest with
    | String "-" tail => option_map Z.opp (unsigned_literal tail)
    | String "+" tail => unsigned_literal tail
    | body => unsigned_literal body
    end = unsigned_literal (String c rest)).
  { clear - Hd.
    destruct c as [[] [] [] [] [] [] [] []];
      try reflexivity; vm_compute in Hd; discriminate. }
  rewrite Hsign, Hlit, Hcount. reflexivity.
Qed.

Lemma decimal_bounds l acc :
  forallb (fun c => match digit c with Some _ => true | None => false end) l = true ->
  0 <= acc ->
  acc * 10 ^ Z.of_nat (length l)
    <= fold_left (fun a c => a * 10 + kwarg 0 (digit c)) l acc
    < (acc + 1) * 10 ^ Z.of_nat (length l).
Proof.
  revert acc. induction l as [|c l IH]; intros acc H Hacc.
  - simpl. lia.
  - simpl in H. apply andb_true_iff in H. destruct H as [Hc Hl].
    destruct (digit c) as [d|] eqn:Hd; [|discriminate].
    apply digit_range in Hd as Hrange.
    cbn [fold_left length]. rewrite Hd. cbn [kwarg].
    specialize (IH (acc * 10 + d) Hl ltac:(lia)).
    rewrite Nat2Z.inj_succ, Z.pow_succ_r by lia.
    assert (Hp : 0 < 10 ^ Z.of_nat (length l)) by (apply Z.pow_pos_nonneg; lia).
    nia.
Qed.

(** X11. For a string with exactly two ['-'] whose third component is a
    string of decimal digits, not empty and of at most 4300 digits (the
    largest number [int()] converts), [extract_year] raises nothing and
    returns the number these digits write. So a release date of the form of
    the item file, ["01-Jan-1995"], gives its year, between 0 and 9999. *)
Theorem extract_year_reads_the_year s :
  (count_char "-" s = 2%nat ->
   nth 2 (split "-" s) EmptyString <> EmptyString ->
   all_digits (nth 2 (split "-" s) EmptyString) = true ->
   (String.length (nth 2 (split "-" s) EmptyString) <= int_max_str_digits)%nat ->
   extract_year (Text s) = Ok (decimal (nth 2 (split "-" s) EmptyString)) /\
   0 <= decimal (nth 2 (split "-" s) EmptyString)
     < 10 ^ Z.of_nat (String.length (nth 2 (split "-" s) EmptyString))) /\
  (well_formed_date (Text s) = true ->
   extract_year (Text s) = Ok (decimal (nth 2 (split "-" s) EmptyString)) /\
   0 <= decimal (nth 2 (split "-" s) EmptyString) <= 9999).
Proof.
  assert (Hgen : forall year,
            year = nth 2 (split "-" s) EmptyString ->
            length (split "-" s) = 3%nat ->
            year <> EmptyString -> all_digits year = true ->
            (String.length year <= int_max_str_digits)%nat ->
            extract_year (Text s) = Ok (decimal year) /\
            0 <= decimal year < 10 ^ Z.of_nat (String.length year)).
  { intros year Eyear Hlen Hne Hdigits Hlimit. split.
    - unfold extract_year. rewrite Hlen, <- Eyear. simpl.
      now apply py_int_all_digits.
    - unfold decimal. rewrite <- list_ascii_length.
      pose proof (decimal_bounds (list_ascii_of_string year) 0 Hdigits
                    ltac:(lia)) as Hb.
      lia. }
  split.
  - intros Hcount Hne Hdigits Hlimit.
    apply Hgen; try assumption; [reflexivity|].
    now rewrite split_length, Hcount.
  - unfold well_formed_date.
    destruct (split "-" s) as [|day [|month [|year [|extra rest]]]] eqn:Esplit;
      try discriminate.
    rewrite !andb_true_iff. intros [[[[_ _] _] Hlen] Hdigits].
    apply Nat.eqb_eq in Hlen. cbn [nth].
    destruct (Hgen year) as [Hyear Hbound].
    + reflexivity.
    + reflexivity.
    + intros ->. discriminate.
    + assumption.
    + rewrite Hlen. unfold int_max_str_digits. lia.
    + split; [exact Hyear|]. rewrite Hlen in Hbound.
      change (10 ^ Z.of_nat 4) with 10000 in Hbound. lia.
Qed.

Lemma extract_year_reads_the_year_witness :
  well_formed_date (Text "04-Feb-1971") = true /\
  extract_year (Text "04-Feb-1971") = Ok 1971 /\
  0 <= 1971 <= 9999 /\
  count_char "-" "video-release-02020" = 2%nat /\
  extract_year (Text "video-release-02020") = Ok 2020.
Proof.
  split; [reflexivity|].
  destruct (proj2 (extract_year_reads_the_year "04-Feb-1971") eq_refl)
    as [Hyear Hbound].
  split; [exact Hyear|]. split; [exact Hbound|].
  split; [reflexivity|].
  exact (proj1 (proj1 (extract_year_reads_the_year "video-release-02020")
                  eq_refl ltac:(discriminate) eq_refl
                  ltac:(unfold int_max_str_digits; simpl; lia))).
Defined.

Lemma extract_year_raises c e :
  extract_year c = Err e ->
  e = ValueError /\
  exists s, c = Text s /\ count_char "-" s = 2%nat.
Proof.
  destruct c as [s|]; [|discriminate]. unfold extract_year.
  rewrite split_length.
  destruct (Nat.eqb_spec (S (count_char "-" s)) 3) as [E|_]; [|discriminate].
  unfold py_int.
  destruct (match rstrip (lstrip _) with EmptyString => _ | String _ _ => _ end);
    [destruct (_ <=? _)%nat; [discriminate|]|];
    intros [= <-]; (split; [reflexivity|]); exists s; (split; [reflexivity | lia]).
Qed.

(** X12. The release years of a column of dates: when the call returns, it
    returns one year per cell, the value of [extract_year] on that cell; it
    raises only [ValueError], and only when a cell is a string with exactly
    two ['-'] on which [extract_year] raises; it returns when every cell is a
    missing value, a string that has not exactly two ['-'], or a string whose
    third component is a string of digits, not empty and of at most 4300
    digits. *)
Theorem release_years_all_or_nothing (column : list cell) :
  (forall years, release_years column = Ok years ->
     Forall2 (fun c year => extract_year c = Ok year) column years) /\
  (forall e, release_years column = Err e ->
     e = ValueError /\
     exists s, In (Text s) column /\ count_char "-" s = 2%nat /\
               extract_year (Text s) = Err ValueError) /\
  ((forall c, In c column ->
      c = Missing \/
      exists s, c = Text s /\
        (count_char "-" s <> 2%nat \/
         (nth 2 (split "-" s) EmptyString <> EmptyString /\
          all_digits (nth 2 (split "-" s) EmptyString) = true /\
          (String.length (nth 2 (split "-" s) EmptyString)
           <= int_max_str_digits)%nat))) ->
   exists years, release_years column = Ok years).
Proof.
  unfold release_years. induction column as [|c column [IHok [IHerr IHall]]].
  - split; [|split].
    + intros years [= <-]. constructor.
    + intros e. discriminate.
    + intros _. exists []. reflexivity.
  - cbn [traverse]. split; [|split].
    + intros years.
      destruct (extract_year c) as [y|e] eqn:Ec; cbn [bind Monad_result];
        [|discriminate].
      destruct (traverse extract_year column) as [ys|e]; cbn [bind Monad_result ret];
        [|discriminate].
      intros [= <-]. constructor; [assumption | now apply IHok].
    + intros e.
      destruct (extract_year c) as [y|e0] eqn:Ec; cbn [bind Monad_result].
      * destruct (traverse extract_year column) as [ys|e1];
          cbn [bind Monad_result ret]; [discriminate|].
        intros [= <-]. destruct (IHerr e1 eq_refl) as [-> [s [Hin H]]].
        split; [reflexivity|]. exists s. split; [now right | assumption].
      * intros [= <-]. destruct (extract_year_raises c e0 Ec) as [-> [s [-> Hs]]].
        split; [reflexivity|]. exists s. split; [now left|]. now split.
    + intros Hall.
      assert (Hc : exists y, extract_year c = Ok y).
      { destruct (Hall c (or_introl eq_refl)) as [->|[s [-> [Hs|[Hne [Hd Hlimit]]]]]].
        - exists 1920. reflexivity.
        - exists 1920. unfold extract_year. rewrite split_length.
          destruct (Nat.eqb_spec (S (count_char "-" s)) 3); [lia | reflexivity].
        - destruct (Nat.eq_dec (count_char "-" s) 2) as [Hs|Hs].
          + eexists. unfold extract_year. rewrite split_length, Hs. simpl.
            now apply py_int_all_digits.
          + exists 1920. unfold extract_year. rewrite split_length.
            destruct (Nat.eqb_spec (S (count_char "-" s)) 3); [lia | reflexivity]. }
      destruct Hc as [y ->]. cbn [bind Monad_result].
      destruct IHall as [ys ->]; [intros c' Hc'; apply Hall; now right|].
      eexists. reflexivity.
Qed.

Lemma release_years_all_or_nothing_witness :
  release_years [Text "01-Jan-1995"; Missing; Text "unknown"]
    = Ok [1995; 1920; 1920] /\
  Forall2 (fun c year => extract_year c = Ok year)
    [Text "01-Jan-1995"; Missing; Text "unknown"] [1995; 1920; 1920] /\
  release_years [Text "01-Jan-1995"; Text "01-Jan-19x5"; Missing]
    = Err ValueError /\
  exists s, In (Text s) [Text "01-Jan-1995"; Text "01-Jan-19x5"; Missing] /\
            count_char "-" s = 2%nat /\
            extract_year (Text s) = Err ValueError.
Proof.
  split; [reflexivity|].
  split.
  - exact (proj1 (release_years_all_or_nothing
                    [Text "01-Jan-1995"; Missing; Text "unknown"])
             [1995; 1920; 1920] eq_refl).
  - split; [reflexivity|].
    exact (proj2 (proj1 (proj2 (release_years_all_or_nothing
                    [Text "01-Jan-1995"; Text "01-Jan-19x5"; Missing]))
             ValueError eq_refl)).
Defined.

(** ** A user whose candidates are all test positives *)

Lemma traverse_raises {A B} (f : A -> result B) l x e :
  In x l -> f x = Err e -> exists e', traverse f l = Err e'.
Proof.
  induction l as [|y l IH]; [contradiction|].
  intros [->|Hin] Hx; cbn [traverse].
  - rewrite Hx. cbn [bind Monad_result]. eauto.
  - destruct (f y); cbn [bind Monad_result]; [|eauto].
    destruct (IH Hin Hx) as [e' ->]. cbn [bind Monad_result]. eauto.
Qed.

(** When one of the two bounds wraps round, no user is left to score. *)
Lemma non_skipped_users_wrapped data_train data_test max_user_id max_item_id :
  max_user_id < 0 \/ max_item_id < 0 ->
  non_skipped_users data_train data_test max_user_id max_item_id = [].
Proof.
  intros Hneg.
  destruct (non_skipped_users data_train data_test max_user_id max_item_id)
    as [|u l] eqn:E; [reflexivity|].
  assert (H : In u (non_skipped_users data_train data_test max_user_id max_item_id))
    by (rewrite E; now left).
  unfold non_skipped_users, skipped in H.
  rewrite filter_In, interval_In, negb_involutive, existsb_exists in H.
  destruct H as [Hu [i [Hi _]]]. apply candidate_items_In in Hi. lia.
Qed.

Section OneClass.

Variable roc_auc_score : list bool -> list Q -> result Q.
Variable match_model : model.

(** X13. The evaluator tests that a user has a positive candidate, not
    that it has a negative one: with a [roc_auc_score] that raises on labels
    of one class, a user (from 1 to the largest user id) with a held-out test
    item, all of whose candidates are test items, makes [average_roc_auc]
    raise; no average is returned. *)
Theorem one_class_user_aborts data_train data_test max_user_id max_item_id u :
  (forall y_true y_score,
     forallb (fun b : bool => b) y_true = true ->
     exists e, roc_auc_score y_true y_score = Err e) ->
  local_max_user_id data_train data_test = Some max_user_id ->
  local_max_item_id data_train data_test = Some max_item_id ->
  1 <= u <= max_user_id ->
  (exists j, 1 <= j /\ In (u, j) (pairs data_test) /\
             ~ In (u, j) (pairs data_train)) ->
  (forall i, 1 <= i <= max_item_id ->
     In (u, i) (pairs data_train) \/ In (u, i) (pairs data_test)) ->
  exists e,
    average_roc_auc roc_auc_score match_model data_train data_test = Err e.
Proof.
  intros Hroc Hmu Hmi Hu [j [Hj [Htest Htrain]]] Hall.
  assert (Hjle : j <= max_item_id).
  { pose proof (py_max_spec item_id _ _ _ Hmi) as [_ Hmax]. apply Hmax.
    unfold values. rewrite map_app. apply in_or_app. right.
    apply pairs_In in Htest. destruct Htest as [row [Hrow [_ <-]]].
    now apply in_map. }
  assert (Helig : In u (eligible_users data_train data_test)).
  { apply (eligible_users_In _ _ _ _ u Hmu Hmi). split; [assumption|].
    exists j. split.
    - apply candidate_items_In. rewrite train_items_In. split; [lia | assumption].
    - now apply test_items_In. }
  assert (Hauc : exists e,
            user_auc roc_auc_score match_model data_train data_test max_item_id u
            = Err e).
  { unfold user_auc. cbv zeta. apply Hroc.
    apply forallb_forall. intros b Hb. apply in_map_iff in Hb.
    destruct Hb as [i [<- Hi]]. apply candidate_items_In in Hi.
    destruct Hi as [Hrange Hnot]. unfold label. apply isin_In.
    apply test_items_In. rewrite train_items_In in Hnot.
    destruct (Hall i Hrange); [contradiction | assumption]. }
  destruct Hauc as [e Hauc].
  rewrite average_roc_auc_run, Hmu, Hmi.
  destruct (reach_wrapped max_user_id) as [Eu|Eu];
    [destruct (reach_wrapped max_item_id) as [Ei|Ei]|].
  - unfold eligible_users in Helig. rewrite Hmu, Hmi in Helig.
    rewrite Eu, Ei.
    destruct (traverse_raises _ _ u e Helig Hauc) as [e' ->].
    exists e'. reflexivity.
  - rewrite non_skipped_users_wrapped by now right.
    exists ZeroDivisionError. reflexivity.
  - rewrite non_skipped_users_wrapped by now left.
    exists ZeroDivisionError. reflexivity.
Qed.

End OneClass.

Lemma rank_auc_one_class y_true y_score :
  forallb (fun b : bool => b) y_true = true ->
  exists e, rank_auc y_true y_score = Err e.
Proof.
  intros H. exists ValueError. unfold rank_auc.
  assert (Hneg : scores_of false y_true y_score = []).
  { unfold scores_of. revert y_score.
    induction y_true as [|b y_true IH]; intros [|sc y_score]; try reflexivity.
    simpl in H. apply andb_true_iff in H. destruct H as [-> H].
    simpl. now apply IH. }
  rewrite Hneg. destruct (scores_of true y_true y_score); reflexivity.
Qed.

Lemma one_class_user_aborts_witness :
  local_max_user_id one_class_train one_class_test = Some 1 /\
  local_max_item_id one_class_train one_class_test = Some 2 /\
  exists e,
    average_roc_auc rank_auc score_by_item one_class_train one_class_test = Err e.
Proof.
  split; [reflexivity|]. split; [reflexivity|].
  apply (one_class_user_aborts rank_auc score_by_item
           one_class_train one_class_test 1 2 1 rank_auc_one_class
           eq_refl eq_refl ltac:(lia)).
  - exists 2. split; [lia|]. split; [simpl; auto|].
    simpl. intros [E|[]]. discriminate.
  - intros i Hi. assert (Ei : i = 1 \/ i = 2) by lia.
    destruct Ei as [->| ->]; simpl; auto.
Defined.
